(** * eslint-plugin-todos: the rule [only-documented-todos]

    A shallow embedding of [src/index.js] and of the parts of the JavaScript
    run time it calls (regular expressions with the flags [u] and [iu],
    [String.prototype.trim], [indexOf], [replace], lodash's [escapeRegExp]).

    Characters.  A JavaScript string is modelled as a [list ascii]; an
    [ascii] stands for the code point of the same number, U+0000 to U+00FF.
    Comments, terms and tracker references made of other code points are
    outside the model. *)

From Stdlib Require Import List Bool Arith ZArith Lia Ascii String.
Import ListNotations.

Local Open Scope list_scope.

(** ** Strings and characters *)

Definition jsstring := list ascii.

(** A literal: [str "todo"] is the JavaScript string ['todo']. *)
Definition str (s : string) : jsstring := list_ascii_of_string s.

Definition code (c : ascii) : nat := nat_of_ascii c.

Definition in_range (lo hi : nat) (c : ascii) : bool :=
  (lo <=? code c) && (code c <=? hi).

(** [\d] *)
Definition is_digit (c : ascii) : bool := in_range 48 57 c.

(** [\w]: letters, digits and the underscore.  Under the flags [iu] the
    class also holds every character whose case folding is one of these;
    between U+0000 and U+00FF there is none. *)
Definition is_word (c : ascii) : bool :=
  in_range 97 122 c || in_range 65 90 c || is_digit c || Ascii.eqb c "_"%char.

(** [\s], and what [trim] strips: WhiteSpace and LineTerminator.  Between
    U+0000 and U+00FF: TAB, LF, VT, FF, CR, SP and NBSP. *)
Definition is_space (c : ascii) : bool :=
  in_range 9 13 c || Nat.eqb (code c) 32 || Nat.eqb (code c) 160.

(** What [.] refuses without the flag [s]: LF and CR. *)
Definition is_line_terminator (c : ascii) : bool :=
  Nat.eqb (code c) 10 || Nat.eqb (code c) 13.

(** SyntaxCharacter of the pattern grammar; also the set that lodash's
    [escapeRegExp] escapes ([reRegExpChar = /[\\^$.*+?()[\]{}|]/g]). *)
Definition is_syntax (c : ascii) : bool :=
  existsb (Ascii.eqb c) (str "\^$.*+?()[]{}|").

(** Canonicalize for the flags [iu]: simple case folding.  A-Z go to a-z,
    U+00C0-U+00DE but U+00D7 go up by 32.  U+00B5 folds to U+03BC, which no
    other character of the range folds to, so it is kept as it is: two
    characters of the range have the same folding in JavaScript exactly when
    they have the same [fold]. *)
Definition fold (c : ascii) : ascii :=
  if in_range 65 90 c then ascii_of_nat (code c + 32)
  else if in_range 192 222 c && negb (Nat.eqb (code c) 215)
       then ascii_of_nat (code c + 32)
  else c.

(** ** Regular expressions *)

Inductive cls := ClsDigit | ClsSpace | ClsWord.

Inductive qkind := QStar | QPlus | QOpt.

Inductive regex :=
| REmpty
| RChar (c : ascii)
| RDot
| RClass (neg : bool) (k : cls)
| RBol
| REol
| RWordB (neg : bool)
| RSeq (a b : regex)
| RAlt (a b : regex)
| RQuant (q : qkind) (greedy : bool) (a : regex)
| RGroup (a : regex)
| RLook (neg : bool) (a : regex).

Definition in_cls (k : cls) (c : ascii) : bool :=
  match k with
  | ClsDigit => is_digit c
  | ClsSpace => is_space c
  | ClsWord => is_word c
  end.

Definition orelse {A} (a b : option A) : option A :=
  match a with Some _ => a | None => b end.

(** The matcher of the language specification, written with continuations:
    [m r k x] runs [r] at index [x] and hands every end index, in the order
    of priority, to [k], until [k] accepts one.  Captures are not kept: the
    rule has no back reference and replaces by the empty string. *)
Section Matcher.

(** [ic]: the flag [i].  [s]: the input. *)
Variable ic : bool.
Variable s : jsstring.

Definition canon (c : ascii) : ascii := if ic then fold c else c.

Definition word_at (x : nat) : bool :=
  match nth_error s x with Some c => is_word c | None => false end.

(** IsWordChar(x - 1) differs from IsWordChar(x). *)
Definition word_boundary (x : nat) : bool :=
  xorb (match x with 0 => false | S p => word_at p end) (word_at x).

Definition m_char (p : ascii -> bool) (k : nat -> option nat) (x : nat)
  : option nat :=
  match nth_error s x with
  | Some c => if p c then k (S x) else None
  | None => None
  end.

(** RepeatMatcher with minimum 0 and no maximum, over the matcher [ma] of
    the body: an iteration that ends where it began is refused; every
    other one moves forward, so that [S (length s)] rounds are never used
    up (see [repeat_m_fuel]). *)
Fixpoint repeat_m (ma : (nat -> option nat) -> nat -> option nat)
  (greedy : bool) (k : nat -> option nat) (n : nat) (y : nat)
  : option nat :=
  match n with
  | 0 => None
  | S n' =>
      let d z := if Nat.eqb z y then None else repeat_m ma greedy k n' z in
      if greedy then orelse (ma d y) (k y)
      else orelse (k y) (ma d y)
  end.

Fixpoint m (r : regex) (k : nat -> option nat) (x : nat) : option nat :=
  match r with
  | REmpty => k x
  | RChar c => m_char (fun d => Ascii.eqb (canon d) (canon c)) k x
  | RDot => m_char (fun d => negb (is_line_terminator d)) k x
  | RClass neg c => m_char (fun d => xorb neg (in_cls c d)) k x
  | RBol => if Nat.eqb x 0 then k x else None
  | REol => if Nat.eqb x (List.length s) then k x else None
  | RWordB neg => if xorb neg (word_boundary x) then k x else None
  | RSeq a b => m a (m b k) x
  | RAlt a b => orelse (m a k x) (m b k x)
  | RGroup a => m a k x
  | RLook neg a =>
      match m a Some x with
      | Some _ => if neg then None else k x
      | None => if neg then k x else None
      end
  | RQuant q greedy a =>
      match q with
      | QStar => repeat_m (m a) greedy k (S (List.length s)) x
      | QPlus => m a (repeat_m (m a) greedy k (S (List.length s))) x
      | QOpt =>
          let d z := if Nat.eqb z x then None else k z in
          if greedy then orelse (m a d x) (k x)
          else orelse (k x) (m a d x)
      end
  end.

(** RegExpBuiltinExec without the flags [g] and [y]: the start index runs
    from 0 to the length; the first index with a match wins. *)
Fixpoint exec_from (r : regex) (fuel x : nat) : option (nat * nat) :=
  match m r Some x with
  | Some e => Some (x, e)
  | None =>
      match fuel with
      | 0 => None
      | S f => exec_from r f (S x)
      end
  end.

Definition exec (r : regex) : option (nat * nat) :=
  exec_from r (List.length s) 0.

End Matcher.

(** A regular expression object: the pattern and the flag [i] (the flag [u]
    is always set in this program). *)
Record regexp := { re_pattern : regex; re_ignoreCase : bool }.

(** [regex.test(s)] *)
Definition test (re : regexp) (s : jsstring) : bool :=
  match exec (re_ignoreCase re) s (re_pattern re) with
  | Some _ => true
  | None => false
  end.

(** [s.replace(regex, '')]: the first match is cut out. *)
Definition replace_empty (re : regexp) (s : jsstring) : jsstring :=
  match exec (re_ignoreCase re) s (re_pattern re) with
  | Some (i, e) => firstn i s ++ skipn e s
  | None => s
  end.

(** ** Outcomes *)

Inductive error := SyntaxError | TypeError | LookupError.

(** What a call does: it returns, or it throws.  [OutOfModel] is not an
    outcome of the program: it marks a pattern written with syntax that this
    development does not cover, about which nothing is stated. *)
Inductive result (A : Type) :=
| Ok (a : A)
| Throw (e : error)
| OutOfModel.

Arguments Ok {A} a.
Arguments Throw {A} e.
Arguments OutOfModel {A}.

Definition bind {A B} (r : result A) (f : A -> result B) : result B :=
  match r with
  | Ok a => f a
  | Throw e => Throw e
  | OutOfModel => OutOfModel
  end.

(** ** [new RegExp(source, flags)]: the pattern grammar with the flag [u]

    Covered: alternatives, sequences, the assertions [^ $ \b \B], lookahead,
    groups, the quantifiers [* + ?] and their lazy forms, [.], the escapes
    [\d \D \s \S \w \W \t \n \v \f \r], an escaped syntax character or [/],
    and every other character but [[ ] { }] as itself.  Character classes,
    braces, back references, named groups, lookbehind and the remaining
    escapes are [OutOfModel]. *)

Inductive gkind := GCapture | GNonCapture | GLook (neg : bool).

Inductive token :=
| TTerm (r : regex)
| TOpen (g : gkind)
| TClose
| TBar
| TQuant (q : qkind).

Definition is_char (c : ascii) (l : string) : bool :=
  existsb (Ascii.eqb c) (str l).

(** The token after a backslash. *)
Definition escape_token (e : ascii) : result token :=
  if is_syntax e || is_char e "/" then Ok (TTerm (RChar e))
  else if is_char e "d" then Ok (TTerm (RClass false ClsDigit))
  else if is_char e "D" then Ok (TTerm (RClass true ClsDigit))
  else if is_char e "s" then Ok (TTerm (RClass false ClsSpace))
  else if is_char e "S" then Ok (TTerm (RClass true ClsSpace))
  else if is_char e "w" then Ok (TTerm (RClass false ClsWord))
  else if is_char e "W" then Ok (TTerm (RClass true ClsWord))
  else if is_char e "b" then Ok (TTerm (RWordB false))
  else if is_char e "B" then Ok (TTerm (RWordB true))
  else if is_char e "t" then Ok (TTerm (RChar (ascii_of_nat 9)))
  else if is_char e "n" then Ok (TTerm (RChar (ascii_of_nat 10)))
  else if is_char e "v" then Ok (TTerm (RChar (ascii_of_nat 11)))
  else if is_char e "f" then Ok (TTerm (RChar (ascii_of_nat 12)))
  else if is_char e "r" then Ok (TTerm (RChar (ascii_of_nat 13)))
  else OutOfModel.

(** The token of a syntax character other than the backslash and the opening
    parenthesis. *)
Definition syntax_token (c : ascii) : result token :=
  if is_char c ")" then Ok TClose
  else if is_char c "|" then Ok TBar
  else if is_char c "*" then Ok (TQuant QStar)
  else if is_char c "+" then Ok (TQuant QPlus)
  else if is_char c "?" then Ok (TQuant QOpt)
  else if is_char c "." then Ok (TTerm RDot)
  else if is_char c "^" then Ok (TTerm RBol)
  else if is_char c "$" then Ok (TTerm REol)
  else OutOfModel.

Definition cons_token (t : result token) (ts : result (list token))
  : result (list token) :=
  bind t (fun a => bind ts (fun l => Ok (a :: l))).

Fixpoint lex (s : jsstring) : result (list token) :=
  match s with
  | [] => Ok []
  | c :: r =>
      if negb (is_syntax c) then cons_token (Ok (TTerm (RChar c))) (lex r)
      else if is_char c "\" then
        match r with
        | [] => Throw SyntaxError
        | e :: r' => cons_token (escape_token e) (lex r')
        end
      else if is_char c "(" then
        match r with
        | q :: r1 =>
            if is_char q "?" then
              match r1 with
              | k :: r2 =>
                  if is_char k ":" then cons_token (Ok (TOpen GNonCapture)) (lex r2)
                  else if is_char k "=" then cons_token (Ok (TOpen (GLook false))) (lex r2)
                  else if is_char k "!" then cons_token (Ok (TOpen (GLook true))) (lex r2)
                  else OutOfModel
              | [] => Throw SyntaxError
              end
            else cons_token (Ok (TOpen GCapture)) (lex r)
        | [] => cons_token (Ok (TOpen GCapture)) (lex r)
        end
      else cons_token (syntax_token c) (lex r)
  end.

(** An alternative from its terms, a disjunction from its alternatives. *)
Definition mkseq (l : list regex) : regex := fold_right RSeq REmpty l.

Fixpoint mkalt (l : list regex) : regex :=
  match l with
  | [] => REmpty
  | [a] => a
  | a :: l' => RAlt a (mkalt l')
  end.

(** The disjunction read so far: [alts] the finished alternatives and [seq]
    the terms of the current one, both last first. *)
Definition close (alts seq : list regex) : regex :=
  mkalt (rev (mkseq (rev seq) :: alts)).

Definition mkgroup (g : gkind) (r : regex) : regex :=
  match g with
  | GCapture | GNonCapture => RGroup r
  | GLook neg => RLook neg r
  end.

(** A quantifier takes the last term.  With the flag [u] an assertion takes
    none, a quantified term takes only the [?] that makes it lazy, and a
    quantifier with no term before it is an error. *)
Definition quantify (q : qkind) (seq : list regex) : option (list regex) :=
  match seq with
  | [] => None
  | t :: rest =>
      match t with
      | RQuant q0 true a =>
          match q with
          | QOpt => Some (RQuant q0 false a :: rest)
          | _ => None
          end
      | RQuant _ false _ => None
      | RBol | REol | RWordB _ | RLook _ _ => None
      | _ => Some (RQuant q true t :: rest)
      end
  end.

Definition frame := (gkind * list regex * list regex)%type.

Fixpoint parse (alts seq : list regex) (stack : list frame)
  (ts : list token) : result regex :=
  match ts with
  | [] =>
      match stack with
      | [] => Ok (close alts seq)
      | _ :: _ => Throw SyntaxError
      end
  | TTerm a :: r => parse alts (a :: seq) stack r
  | TOpen g :: r => parse [] [] ((g, alts, seq) :: stack) r
  | TClose :: r =>
      match stack with
      | [] => Throw SyntaxError
      | (g, palts, pseq) :: st =>
          parse palts (mkgroup g (close alts seq) :: pseq) st r
      end
  | TBar :: r => parse (mkseq (rev seq) :: alts) [] stack r
  | TQuant q :: r =>
      match quantify q seq with
      | Some seq' => parse alts seq' stack r
      | None => Throw SyntaxError
      end
  end.

Definition compile (source : jsstring) : result regex :=
  bind (lex source) (parse [] [] []).

(** [new RegExp(source, 'iu')] and [new RegExp(source, 'u')] *)
Definition RegExp (source : jsstring) (ignoreCase : bool) : result regexp :=
  bind (compile source)
       (fun r => Ok {| re_pattern := r; re_ignoreCase := ignoreCase |}).

(** A regular expression literal of the source text, [/source/u]: it is
    compiled when the program is read, so it cannot throw when it is used. *)
Definition regexp_literal (source : string) : regexp :=
  match RegExp (str source) false with
  | Ok re => re
  | _ => {| re_pattern := REmpty; re_ignoreCase := false |}
  end.

(** ** Library functions *)

(** lodash's [escapeRegExp]: a backslash before every syntax character. *)
Definition escape_char (c : ascii) : jsstring :=
  if is_syntax c then ["\"%char; c] else [c].

Definition escapeRegExp (s : jsstring) : jsstring := flat_map escape_char s.

Fixpoint drop_space (s : jsstring) : jsstring :=
  match s with
  | [] => []
  | c :: r => if is_space c then drop_space r else s
  end.

(** [String.prototype.trim] *)
Definition trim (s : jsstring) : jsstring :=
  rev (drop_space (rev (drop_space s))).

Fixpoint starts_with (needle hay : jsstring) : bool :=
  match needle, hay with
  | [], _ => true
  | _ :: _, [] => false
  | a :: n, b :: h => Ascii.eqb a b && starts_with n h
  end.

Fixpoint indexOf_from (needle hay : jsstring) (i : nat) : Z :=
  if starts_with needle hay then Z.of_nat i
  else match hay with
       | [] => (-1)%Z
       | _ :: h => indexOf_from needle h (S i)
       end.

(** [hay.indexOf(needle)] *)
Definition indexOf (hay needle : jsstring) : Z := indexOf_from needle hay 0.

(** ** The package [ellipsize]

    [src/index.js] requires the npm package [ellipsize] (line 10) and calls
    it with the trimmed text and 60 (line 164).  The package is no part of
    the sources of this repository; the definitions below follow its code in
    the version that the manifest of the plugin asks for (0.1), with the
    options at their defaults: the marker is U+2026, the characters at which
    a text is cut are the space and the hyphen, and [truncate] is [true].

    The marker U+2026 lies outside the alphabet of this development.
    [ellipse] stands for it as one character; it is written with the code
    133, the place of the horizontal ellipsis in Windows-1252. *)
Definition ellipse : jsstring := [ascii_of_nat 133].

(** [chars.indexOf(c) !== -1] for the default [chars], [' '] and ['-']. *)
Definition is_break (c : ascii) : bool :=
  Ascii.eqb c " "%char || Ascii.eqb c "-"%char.

(** The loop of the package.  [rest] is what is left of [str] from the
    index [i] on, [last] the index of the last space or hyphen seen so far
    (0 when there was none):

      for (var i = 0, len = str.length; i < len; i++) {
          c = str.charAt(i);
          if (chars.indexOf(c) !== -1) last = i;
          if (i < max) continue;
          if (last === 0)
              return !truncate ? '' : str.substring(0, max - 1) + ellipse;
          return str.substring(0, last) + ellipse;
      }
      return str;
*)
Fixpoint ellipsize_loop (str0 rest : jsstring) (max i last : nat) : jsstring :=
  match rest with
  | [] => str0
  | c :: rest' =>
      let last' := if is_break c then i else last in
      if i <? max then ellipsize_loop str0 rest' max (S i) last'
      else if last' =? 0 then firstn (max - 1) str0 ++ ellipse
      else firstn last' str0 ++ ellipse
  end.

(** [ellipsize(str, max)]: the empty text and the limit 0 give the empty
    text, a text shorter than the limit is returned as it is, and the loop
    decides about the others. *)
Definition ellipsize (s : jsstring) (max : nat) : jsstring :=
  if List.length s =? 0 then []
  else if max =? 0 then []
  else if List.length s <? max then s
  else ellipsize_loop s s max 0 0.

(** ** JavaScript values, as far as the manifest needs them *)

#[warnings="-register-all"]
Inductive jsvalue :=
| VUndefined
| VNull
| VBool (b : bool)
| VNumber (z : Z)
| VString (s : jsstring)
| VObject (fields : list (string * jsvalue)).

Fixpoint assoc (key : string) (fields : list (string * jsvalue)) : jsvalue :=
  match fields with
  | [] => VUndefined
  | (k, v) :: r => if String.eqb k key then v else assoc key r
  end.

(** [v.key], for the keys this program reads ([packageJson], [bugs],
    [repository], [resolutions], [url]): none of them is a property of a
    string, a number or a boolean. *)
Definition get (v : jsvalue) (key : string) : result jsvalue :=
  match v with
  | VUndefined | VNull => Throw TypeError
  | VObject fields => Ok (assoc key fields)
  | _ => Ok VUndefined
  end.

Definition truthy (v : jsvalue) : bool :=
  match v with
  | VUndefined | VNull => false
  | VBool b => b
  | VNumber z => negb (Z.eqb z 0)
  | VString s => negb (Nat.eqb (List.length s) 0)
  | VObject _ => true
  end.

Definition is_string (v : jsvalue) : bool :=
  match v with VString _ => true | _ => false end.

Notation "x <- a ;; b" := (bind a (fun x => b))
  (at level 61, a at next level, right associativity).

(** ** [src/index.js] *)

Inductive comment_type := Line | Block | Shebang.

Record node := { type : comment_type; value : jsstring }.

Definition is_line (t : comment_type) : bool :=
  match t with Line => true | _ => false end.

Definition is_block (t : comment_type) : bool :=
  match t with Block => true | _ => false end.

Definition isDirectiveComment (n : node) : bool :=
  let comment := trim (value n) in
  is_line (type n) && Z.eqb (indexOf comment (str "eslint-")) 0 ||
  is_block (type n) && (
    Z.eqb (indexOf comment (str "global ")) 0 ||
    Z.eqb (indexOf comment (str "eslint ")) 0 ||
    Z.eqb (indexOf comment (str "eslint-")) 0).

(** [getRepoUrl].  [lookup] is what [readPkgUp.sync()] does: it returns a
    value or throws.  [after_bugs] is [Some v] when the block on [bugs] has
    returned [v], and [None] when the function goes on to [repository]. *)
Definition getRepoUrl (lookup : result jsvalue) : result jsvalue :=
  found <- lookup ;;
  packageJson <- get found "packageJson" ;;
  bugs <- get packageJson "bugs" ;;
  after_bugs <-
    (if truthy bugs then
       if is_string bugs then Ok (Some bugs)
       else
         bugs_url <- get bugs "url" ;;
         if truthy bugs_url then Ok (Some bugs_url) else Ok None
     else Ok None) ;;
  match after_bugs with
  | Some v => Ok v
  | None =>
      repository <- get packageJson "repository" ;;
      if truthy repository then
        if is_string repository then Ok repository
        else
          resolutions <- get packageJson "resolutions" ;;
          resolutions_url <- get resolutions "url" ;;
          if truthy resolutions_url then get repository "url"
          else Ok VUndefined
      else Ok VUndefined
  end.

Inductive MatchLocation := Start | Anywhere.

(** [context.options[0]], as the schema of the rule allows it. *)
Record configuration := {
  terms : option (list jsstring);
  location : option MatchLocation;
  url : option jsstring
}.

Definition no_configuration : configuration :=
  {| terms := None; location := None; url := None |}.

Definition default_terms : list jsstring :=
  [str "todo"; str "fixme"; str "xxx"].

Definition or_default {A} (o : option A) (d : A) : A :=
  match o with Some a => a | None => d end.

(** [configuration.terms || ['todo', 'fixme', 'xxx']]: an array is truthy. *)
Definition warningTerms (c : configuration) : list jsstring :=
  or_default (terms c) default_terms.

Definition location_of (c : configuration) : MatchLocation :=
  or_default (location c) Start.

Definition selfConfigRegEx : regexp := regexp_literal "\bno-warning-comments\b".

(** [configuration.url || getRepoUrl()] *)
Definition repoUrl_of (c : configuration) (lookup : result jsvalue)
  : result jsvalue :=
  match url c with
  | Some u => if truthy (VString u) then Ok (VString u) else getRepoUrl lookup
  | None => getRepoUrl lookup
  end.

(** [repoUrl ? new RegExp(`${escapeRegExp(repoUrl.trim())}`, 'iu') : undefined];
    [trim] is a method of strings only. *)
Definition repoUrlRegEx_of (repoUrl : jsvalue) : result (option regexp) :=
  if truthy repoUrl then
    match repoUrl with
    | VString u =>
        re <- RegExp (escapeRegExp (trim u)) true ;; Ok (Some re)
    | _ => Throw TypeError
    end
  else Ok None.

Definition word_end : regexp := regexp_literal "\w$".
Definition word_start : regexp := regexp_literal "^\w".

Definition wordBoundary : jsstring := str "\b".
Definition eitherOrWordBoundary : jsstring := str "|" ++ wordBoundary.

Definition suffix_of (term : jsstring) : jsstring :=
  (if test word_end term then str "\b" else str "") ++ str ":?".

Definition prefix_of (l : MatchLocation) (term : jsstring) : jsstring :=
  match l with
  | Start => str "^\s*"
  | Anywhere => if test word_start term then wordBoundary else str ""
  end.

(** The source text that [convertToRegExp] hands to [new RegExp]. *)
Definition pattern_source (l : MatchLocation) (term : jsstring) : jsstring :=
  let escaped := escapeRegExp term in
  let suffix := suffix_of term in
  let prefix := prefix_of l term in
  match l with
  | Start => prefix ++ escaped ++ suffix
  | Anywhere =>
      prefix ++ escaped ++ suffix ++ eitherOrWordBoundary ++ term ++ wordBoundary
  end.

Definition convertToRegExp (l : MatchLocation) (term : jsstring) : result regexp :=
  RegExp (pattern_source l term) true.

(** [array.map(f)] where [f] may throw. *)
Fixpoint map_result {A B} (f : A -> result B) (l : list A) : result (list B) :=
  match l with
  | [] => Ok []
  | a :: r => b <- f a ;; bs <- map_result f r ;; Ok (b :: bs)
  end.

(** What [create] leaves in its closure for the checks. *)
Record rule := {
  warningRegExps : list regexp;
  repoUrlRegEx : option regexp
}.

Definition create (options0 : option configuration) (lookup : result jsvalue)
  : result rule :=
  let configuration := or_default options0 no_configuration in
  repoUrl <- repoUrl_of configuration lookup ;;
  tracker <- repoUrlRegEx_of repoUrl ;;
  regexps <- map_result (convertToRegExp (location_of configuration))
                        (warningTerms configuration) ;;
  Ok {| warningRegExps := regexps; repoUrlRegEx := tracker |}.

Definition commentHasIssue (r : rule) (comment : jsstring) : bool :=
  match repoUrlRegEx r with
  | None => false
  | Some re => test re comment
  end.

(** The loop of [getUndocumentedTodoMessage]; [None] is its [false]. *)
Fixpoint first_message (r : rule) (regexps : list regexp) (comment : jsstring)
  : option jsstring :=
  match regexps with
  | [] => None
  | regex :: rest =>
      if test regex comment && negb (commentHasIssue r comment) then
        let fullMessage := replace_empty regex comment in
        Some (ellipsize (trim fullMessage) 60)
      else first_message r rest comment
  end.

Definition getUndocumentedTodoMessage (r : rule) (comment : jsstring)
  : option jsstring :=
  first_message r (warningRegExps r) comment.

(** [checkComment]: the message of the report, if one is made.  The empty
    string is falsy, as [false] is. *)
Definition checkComment (r : rule) (n : node) : option jsstring :=
  if isDirectiveComment n && test selfConfigRegEx (value n) then None
  else
    match getUndocumentedTodoMessage r (value n) with
    | Some todoMessage =>
        if truthy (VString todoMessage)
        then Some (str "Undocumented TODO: " ++ todoMessage)
        else None
    | None => None
    end.

Definition not_shebang (n : node) : bool :=
  match type n with Shebang => false | _ => true end.

(** The handler of [Program]: the reports in the order of the comments. *)
Definition Program (r : rule) (comments : list node) : list (node * jsstring) :=
  flat_map (fun n => match checkComment r n with
                     | Some msg => [(n, msg)]
                     | None => []
                     end)
           (filter not_shebang comments).

(** The rule on a file, from its options and the outcome of the lookup. *)
Definition run (options0 : option configuration) (lookup : result jsvalue)
  (comments : list node) : result (list (node * jsstring)) :=
  r <- create options0 lookup ;; Ok (Program r comments).

(** ** Examples *)

Definition only_terms (l : list string) (where_ : MatchLocation) (u : option string)
  : option configuration :=
  Some {| terms := Some (map str l); location := Some where_;
          url := option_map str u |}.

(** A manifest without [bugs] and [repository]. *)
Definition bare_manifest : result jsvalue :=
  Ok (VObject [("packageJson"%string, VObject [])]).

Definition line (s : string) : node := {| type := Line; value := str s |}.

Definition messages (r : result (list (node * jsstring))) : result (list string) :=
  l <- r ;; Ok (map (fun p => string_of_list_ascii (snd p)) l).

(** * Vocabulary of the statements *)

(** ** Occurrences of a term in a comment *)

(** [h] begins with [t], the letter case aside when [ic] is set. *)
Fixpoint starts_with_ci (ic : bool) (t h : jsstring) : bool :=
  match t, h with
  | [], _ => true
  | _ :: _, [] => false
  | a :: t', b :: h' => Ascii.eqb (canon ic b) (canon ic a) && starts_with_ci ic t' h'
  end.

(** The start indices of a comment, the end included. *)
Definition positions (c : jsstring) : list nat := seq 0 (S (List.length c)).

(** The term stands at index [i] of the comment, letter case aside. *)
Definition occurs_at (t c : jsstring) (i : nat) : bool :=
  starts_with_ci true t (skipn i c).

Definition contains_ci (t c : jsstring) : bool :=
  existsb (occurs_at t c) (positions c).

(** The first character is a word character. *)
Definition head_word (s : jsstring) : bool :=
  match s with [] => false | c :: _ => is_word c end.

(** What follows is the end or a character that is not a word character. *)
Definition next_not_word (rest : jsstring) : bool := negb (head_word rest).

(** A word character stands right before index [i]. *)
Definition word_before (s : jsstring) (i : nat) : bool :=
  match i with 0 => false | S p => word_at s p end.

(** A word character stands right after the occurrence of [t] at [i]. *)
Definition word_after (t c : jsstring) (i : nat) : bool :=
  word_at c (i + List.length t).

(** The occurrence at [i] lies in a longer word: a word character stands
    right before it or right after it. *)
Definition inside_longer_word (t c : jsstring) (i : nat) : bool :=
  word_before c i || word_after t c i.

(** The comment contains the term, a run of word characters, and every
    occurrence lies in a longer word. *)
Definition only_inside_longer_word (t c : jsstring) : bool :=
  forallb is_word t && contains_ci t c &&
  forallb (fun i => implb (occurs_at t c i) (inside_longer_word t c i))
          (positions c).

(** ** The matchers *)

(** Whether the matcher compiled for a term matches a comment. *)
Definition matches (l : MatchLocation) (term comment : jsstring) : result bool :=
  re <- convertToRegExp l term ;; Ok (test re comment).

(** The first alternative of the source: the prefix, the escaped term and
    the suffix.  In the location [start] it is the whole source. *)
Definition first_source (l : MatchLocation) (term : jsstring) : jsstring :=
  prefix_of l term ++ escapeRegExp term ++ suffix_of term.

(** The second alternative of the location [anywhere]. *)
Definition second_source (term : jsstring) : jsstring :=
  wordBoundary ++ term ++ wordBoundary.

(** The patterns that these sources compile to (see [compile_first] and
    [compile_second_plain]). *)
Definition lits (t : jsstring) : list regex := map RChar t.

Definition space_star : regex := RQuant QStar true (RClass false ClsSpace).

Definition opt_colon : regex := RQuant QOpt true (RChar ":"%char).

Definition boundary_terms (b : bool) : list regex :=
  if b then [RWordB false] else [].

Definition prefix_terms (l : MatchLocation) (term : jsstring) : list regex :=
  match l with
  | Start => [RBol; space_star]
  | Anywhere => boundary_terms (test word_start term)
  end.

Definition suffix_terms (term : jsstring) : list regex :=
  boundary_terms (test word_end term) ++ [opt_colon].

Definition first_terms (l : MatchLocation) (term : jsstring) : list regex :=
  prefix_terms l term ++ lits term ++ suffix_terms term.

Definition first_regexp (l : MatchLocation) (term : jsstring) : regexp :=
  {| re_pattern := mkseq (first_terms l term); re_ignoreCase := true |}.

Definition second_terms (term : jsstring) : list regex :=
  RWordB false :: lits term ++ [RWordB false].

(** The pattern of an escaped text, with the flags [iu]. *)
Definition literal_regexp (t : jsstring) : regexp :=
  {| re_pattern := mkseq (lits t); re_ignoreCase := true |}.

(** The token that [selfConfigRegEx] looks for. *)
Definition token_text : jsstring := str "no-warning-comments".

(** ** The message *)

(** The first compiled term that matches a comment which is not exempt. *)
Definition hit (r : rule) (comment : jsstring) : option regexp :=
  find (fun re => test re comment && negb (commentHasIssue r comment))
       (warningRegExps r).

(** What is left of the comment once the match is cut out and the rest is
    trimmed. *)
Definition remainder (re : regexp) (comment : jsstring) : jsstring :=
  trim (replace_empty re comment).

(** The text begins with a whitespace character. *)
Definition edge_space (s : jsstring) : bool :=
  match s with c :: _ => is_space c | [] => false end.

(** The text neither begins nor ends with a whitespace character. *)
Definition trimmed (s : jsstring) : bool :=
  negb (edge_space s) && negb (edge_space (rev s)).

(** The character at the index [j] is a space or a hyphen. *)
Definition break_at (s : jsstring) (j : nat) : bool :=
  match nth_error s j with Some c => is_break c | None => false end.

(** No space and no hyphen at the [n] indexes from [from] on. *)
Definition no_break (s : jsstring) (from n : nat) : bool :=
  forallb (fun j => negb (break_at s j)) (seq from n).

(** ** The manifest *)

Definition nullish (v : jsvalue) : bool :=
  match v with VUndefined | VNull => true | _ => false end.

(** [v.key] where it cannot throw. *)
Definition prop (v : jsvalue) (key : string) : jsvalue :=
  match get v key with Ok x => x | _ => VUndefined end.

(** The lookup gives no manifest: it throws, or what it returns has no
    [packageJson]. *)
Definition manifest_missing (lookup : result jsvalue) : bool :=
  match lookup with
  | Throw _ => true
  | Ok found =>
      match get found "packageJson" with
      | Ok packageJson => nullish packageJson
      | _ => true
      end
  | OutOfModel => false
  end.

(** [bugs] gives no reference: it is falsy, or it is not a string and its
    [url] is falsy. *)
Definition bugs_unusable (bugs : jsvalue) : bool :=
  negb (truthy bugs) || (negb (is_string bugs) && negb (truthy (prop bugs "url"))).

(** The option [url] is unset or empty. *)
Definition url_unset (options0 : option configuration) : bool :=
  match url (or_default options0 no_configuration) with
  | Some u => negb (truthy (VString u))
  | None => true
  end.

(** What [readPkgUp.sync()] returns for a manifest with these fields. *)
Definition manifest (fields : list (string * jsvalue)) : result jsvalue :=
  Ok (VObject [("packageJson"%string, VObject fields)]).

(** ** Sample inputs *)

Definition todo_rule : rule :=
  {| warningRegExps := [first_regexp Start (str "todo")];
     repoUrlRegEx := None |}.

Definition long_comment : jsstring :=
  str " TODO: 0123456789012345678901234567890123456789012345678901234567890123456789".

Definition digits70 : jsstring :=
  str "0123456789012345678901234567890123456789012345678901234567890123456789".

Definition long_sentence : jsstring :=
  str "rewrite the parser so that it copes with nested block comments and strings".

Definition sentence_comment : jsstring :=
  str " TODO: " ++ long_sentence ++ str "  ".

Definition tracker_options : option configuration :=
  only_terms ["todo"%string] Start (Some "https://example.com/issues/4"%string).

Definition repository_object : jsvalue :=
  VObject [("type"%string, VString (str "git"));
           ("url"%string,
            VString (str "https://github.com/AuHau/eslint-plugin-todos"))].

(** [new RegExp(source, flags).exec(s)]: the span of the match. *)
Definition exec_source (source : string) (ignoreCase : bool) (s : string)
  : result (option (nat * nat)) :=
  re <- RegExp (str source) ignoreCase ;;
  Ok (exec ignoreCase (str s) (re_pattern re)).

(** * Vocabulary of the proofs *)

(** Two continuations that agree wherever a matcher started at [x] can
    call them: at [x] itself and at the later indices of the input. *)
Definition agree (s : jsstring) (x : nat) (k k' : nat -> option nat) : Prop :=
  forall y, x <= y -> y <= List.length s \/ y = x -> k y = k' y.

Definition extensional s (ma : (nat -> option nat) -> nat -> option nat) :=
  forall k k' x, agree s x k k' -> ma k x = ma k' x.

(** Whitespace from index [x] up to index [z]. *)
Definition spaces (s : jsstring) (x z : nat) : Prop :=
  forall i, x <= i < z -> exists c, nth_error s i = Some c /\ is_space c = true.

(** The tokens of the sources that [convertToRegExp] builds. *)
Definition prepend (toks : list token) (r : result (list token))
  : result (list token) :=
  bind r (fun l => Ok (toks ++ l)).

Definition term_tokens (l : list regex) : list token := map TTerm l.

Definition star_tokens : list token :=
  [TTerm RBol; TTerm (RClass false ClsSpace); TQuant QStar].

Definition boundary_tokens : list token := [TTerm (RWordB false)].

Definition colon_tokens : list token := [TTerm (RChar ":"%char); TQuant QOpt].

Definition suffix_tokens (term : jsstring) : list token :=
  (if test word_end term then boundary_tokens else []) ++ colon_tokens.

Definition prefix_tokens (l : MatchLocation) (term : jsstring) : list token :=
  match l with
  | Start => star_tokens
  | Anywhere => if test word_start term then boundary_tokens else []
  end.

Definition first_tokens (l : MatchLocation) (term : jsstring) : list token :=
  prefix_tokens l term ++ term_tokens (lits term) ++ suffix_tokens term.

(** The state of [parse] with a first alternative [a0] already read before
    the disjunction: [a0] goes under the alternatives of the outermost
    frame. *)
Fixpoint bottom (a0 : regex) (stack : list frame) : list frame :=
  match stack with
  | [] => []
  | (g, pa, ps) :: st =>
      match st with
      | [] => [(g, pa ++ [a0], ps)]
      | _ :: _ => (g, pa, ps) :: bottom a0 st
      end
  end.

Definition top_alts (a0 : regex) (alts : list regex) (stack : list frame)
  : list regex :=
  match stack with [] => alts ++ [a0] | _ :: _ => alts end.

Definition result_map {A B} (f : A -> B) (r : result A) : result B :=
  bind r (fun a => Ok (f a)).

(** ** Further vocabulary *)

(** No character of the term is a syntax character of the pattern grammar. *)
Definition no_syntax (t : jsstring) : bool :=
  forallb (fun c => negb (is_syntax c)) t.

(** A text without the colon that it may begin with. *)
Definition drop_colon (rest : jsstring) : jsstring :=
  match rest with
  | c :: r => if Ascii.eqb c ":"%char then r else rest
  | [] => []
  end.

(** The first character is not whitespace. *)
Definition head_not_space (t : jsstring) : bool :=
  match t with c :: _ => negb (is_space c) | [] => false end.

Definition is_some {A} (o : option A) : bool :=
  match o with Some _ => true | None => false end.

(** The term begins with one of the quantifiers [* + ?]. *)
Definition starts_with_quantifier (t : jsstring) : bool :=
  match t with c :: _ => is_char c "*+?" | [] => false end.

(** The trimmed text of the comment begins with one of the three prefixes
    that make a block comment a directive. *)
Definition block_directive_prefix (t : jsstring) : bool :=
  starts_with (str "global ") t || starts_with (str "eslint ") t
  || starts_with (str "eslint-") t.

(** The reference that [bugs] gives, as [getRepoUrl] reads it. *)
Definition bugs_reference (bugs : jsvalue) : option jsvalue :=
  if truthy bugs then
    if is_string bugs then Some bugs
    else if truthy (prop bugs "url") then Some (prop bugs "url") else None
  else None.

(** Options with a reference that holds syntax characters and spaces
    around it. *)
Definition dotted_options : option configuration :=
  only_terms ["todo"%string] Start (Some " https://x.test/issues?id=1 "%string).

(** A manifest field set with [bugs] as an object and [repository] as an
    object, without [resolutions]. *)
Definition both_fields : list (string * jsvalue) :=
  [("bugs"%string,
    VObject [("url"%string, VString (str "https://x.test/issues"))]);
   ("repository"%string, repository_object)].

(** Options without [url] and a manifest whose [bugs.url] is an object. *)
Definition odd_manifest : result jsvalue :=
  manifest [("bugs"%string,
             VObject [("url"%string,
                       VObject [("web"%string, VString (str "https://x.test"))])])].

(** * Facts *)

(** ** The engine on small inputs *)

Example exec_lazy_star : exec_source "a*?b" false "aaab" = Ok (Some (0, 4)).
Proof. reflexivity. Qed.

Example exec_backtracks_into_groups :
  exec_source "(a|ab)(c|bcd)(d*)" false "abcd" = Ok (Some (0, 4)).
Proof. reflexivity. Qed.

Example exec_empty_iterations_end :
  exec_source "(?:a*)*b" false "aaac" = Ok None /\
  exec_source "(a*)+" false "b" = Ok (Some (0, 0)).
Proof. split; reflexivity. Qed.

Example exec_lookahead :
  exec_source "x(?=y)" false "xz xy" = Ok (Some (3, 4)) /\
  exec_source "x(?!y)" false "xy xz" = Ok (Some (3, 4)).
Proof. split; reflexivity. Qed.

Example exec_word_boundaries :
  exec_source "\bfoo\b" true "a FOO b" = Ok (Some (2, 5)) /\
  exec_source "\bfoo\b" false "a FOO b" = Ok None /\
  exec_source "\Bb" false "b ab" = Ok (Some (3, 4)).
Proof. split; [ reflexivity | split; reflexivity ]. Qed.

Example exec_leading_whitespace_given_back :
  exec_source "^\s* x" true "    x" = Ok (Some (0, 5)).
Proof. reflexivity. Qed.

Example exec_refused_patterns :
  exec_source "a**" false "a" = Throw SyntaxError /\
  exec_source "^*" false "a" = Throw SyntaxError /\
  exec_source "(a" false "a" = Throw SyntaxError /\
  exec_source "a)" false "a" = Throw SyntaxError /\
  exec_source "[a]" false "a" = OutOfModel.
Proof. repeat (split; [ reflexivity | ]). reflexivity. Qed.

(** ** Characters *)

Ltac by_cases_on c := destruct c as [[] [] [] [] [] [] [] []]; reflexivity.

Lemma word_not_syntax c : implb (is_word c) (negb (is_syntax c)) = true.
Proof. by_cases_on c. Qed.

Lemma word_not_space c : implb (is_word c) (negb (is_space c)) = true.
Proof. by_cases_on c. Qed.

Lemma is_word_fold c : is_word (fold c) = is_word c.
Proof. by_cases_on c. Qed.

Lemma is_word_not_syntax c : is_word c = true -> is_syntax c = false.
Proof.
  intro H. pose proof (word_not_syntax c) as W. rewrite H in W. simpl in W.
  now apply negb_true_iff.
Qed.

Lemma is_space_not_word c : is_space c = true -> is_word c = false.
Proof.
  intro H. pose proof (word_not_space c) as W.
  destruct (is_word c); [ rewrite H in W; discriminate | reflexivity ].
Qed.

Lemma is_word_canon ic c d :
  canon ic c = canon ic d -> is_word c = is_word d.
Proof.
  unfold canon. destruct ic; [ | congruence ].
  intro H. rewrite <- (is_word_fold c), <- (is_word_fold d). now rewrite H.
Qed.

(** ** Lists *)

Lemma nth_error_skipn {A} (l : list A) x : nth_error l x = hd_error (skipn x l).
Proof.
  revert l; induction x as [| x IH]; intros [| a l]; simpl; auto.
Qed.

Lemma skipn_S_tl {A} (l : list A) x : skipn (S x) l = tl (skipn x l).
Proof.
  revert l; induction x as [| x IH]; intros [| a l]; auto.
  change (skipn (S (S x)) (a :: l)) with (skipn (S x) l).
  now rewrite IH.
Qed.

Lemma skipn_length_app {A} (l r : list A) : skipn (List.length l) (l ++ r) = r.
Proof. induction l; simpl; auto. Qed.

Lemma skipn_split {A} (l : list A) x :
  x <= List.length l -> exists p, l = p ++ skipn x l /\ List.length p = x.
Proof.
  intro H. exists (firstn x l). split.
  - now rewrite firstn_skipn.
  - apply firstn_length_le; assumption.
Qed.

(** ** Literal text under the matcher *)

Lemma starts_with_ci_app ic t mid post :
  map (canon ic) mid = map (canon ic) t ->
  starts_with_ci ic t (mid ++ post) = true.
Proof.
  revert mid; induction t as [| a t IH]; intros [| b mid] H; simpl in *;
    try discriminate; auto.
  injection H as Hb Ht. rewrite Hb, Ascii.eqb_refl. simpl. now apply IH.
Qed.

Lemma starts_with_ci_inv ic t h :
  starts_with_ci ic t h = true ->
  exists mid post, h = mid ++ post /\ map (canon ic) mid = map (canon ic) t.
Proof.
  revert h; induction t as [| a t IH]; intros h H.
  - exists [], h. auto.
  - destruct h as [| b h]; simpl in H; [ discriminate | ].
    apply andb_true_iff in H as [Hb Ht]. apply Ascii.eqb_eq in Hb.
    destruct (IH _ Ht) as (mid & post & -> & Hm).
    exists (b :: mid), post. simpl. now rewrite Hb, Hm.
Qed.

Arguments repeat_m : simpl never.

Section MatcherFacts.

Variable ic : bool.
Variable s : jsstring.

Lemma repeat_m_S ma greedy k n y :
  repeat_m ma greedy k (S n) y =
  let d z := if Nat.eqb z y then None else repeat_m ma greedy k n z in
  if greedy then orelse (ma d y) (k y) else orelse (k y) (ma d y).
Proof. reflexivity. Qed.

Lemma agree_later x y k k' :
  agree s x k k' -> x <= y -> y <= List.length s \/ y = x -> agree s y k k'.
Proof. intros H Hxy Hy z Hz Hz'. apply H; lia. Qed.

Lemma m_char_ext p : extensional s (m_char s p).
Proof.
  intros k k' x H. unfold m_char.
  destruct (nth_error s x) eqn:E; auto.
  destruct (p a); auto. apply H; [ lia | left ].
  apply Nat.le_succ_l. apply nth_error_Some. congruence.
Qed.

Lemma repeat_m_ext ma greedy n :
  extensional s ma -> extensional s (fun k => repeat_m ma greedy k n).
Proof.
  intros Hma. induction n as [| n IH]; intros k k' y H; [ reflexivity | ].
  rewrite !repeat_m_S. cbv zeta.
  assert (Hd : ma (fun z => if Nat.eqb z y then None else repeat_m ma greedy k n z) y
             = ma (fun z => if Nat.eqb z y then None else repeat_m ma greedy k' n z) y).
  { apply Hma. intros z Hz Hz'. destruct (Nat.eqb z y); auto.
    apply IH. eapply agree_later; eauto. }
  rewrite Hd, (H y); auto.
Qed.

Lemma m_ext r : extensional s (m ic s r).
Proof.
  induction r as [ | c | | neg cl | | | neg | a IHa b IHb | a IHa b IHb
                 | q greedy a IHa | a IHa | neg a IHa ];
    intros k k' x H; simpl; try (apply m_char_ext; assumption).
  - apply H; auto.
  - destruct (Nat.eqb x 0); auto.
  - destruct (Nat.eqb x (List.length s)); auto.
  - destruct (xorb neg (word_boundary s x)); auto.
  - apply IHa. intros y Hy Hy'. apply IHb. eapply agree_later; eauto.
  - rewrite (IHa k k' x H), (IHb k k' x H). reflexivity.
  - destruct q.
    + apply repeat_m_ext; assumption.
    + apply IHa. intros y Hy Hy'. apply repeat_m_ext; auto.
      eapply agree_later; eauto.
    + assert (Hd : m ic s a (fun z => if Nat.eqb z x then None else k z) x
                 = m ic s a (fun z => if Nat.eqb z x then None else k' z) x).
      { apply IHa. intros z Hz Hz'. destruct (Nat.eqb z x); auto. }
      rewrite Hd, (H x); auto.
  - apply IHa; assumption.
  - rewrite (H x); auto.
Qed.

Lemma m_ext_all r k k' x : (forall y, k y = k' y) -> m ic s r k x = m ic s r k' x.
Proof. intro H. apply m_ext. intros y _ _. apply H. Qed.

(** The rounds given to [repeat_m] are enough: past [length s - x] of
    them, more change nothing. *)
Lemma repeat_m_fuel ma greedy k :
  extensional s ma ->
  forall n n' y, y <= List.length s ->
    List.length s - y < n -> List.length s - y < n' ->
    repeat_m ma greedy k n y = repeat_m ma greedy k n' y.
Proof.
  intros Hma. induction n as [| n IH]; intros n' y Hy Hn Hn'; [ lia | ].
  destruct n' as [| n']; [ lia | ]. rewrite !repeat_m_S. cbv zeta.
  assert (Hd : ma (fun z => if Nat.eqb z y then None else repeat_m ma greedy k n z) y
             = ma (fun z => if Nat.eqb z y then None else repeat_m ma greedy k n' z) y).
  { apply Hma. intros z Hz Hz'. destruct (Nat.eqb_spec z y); auto.
    apply IH; lia. }
  now rewrite Hd.
Qed.

Lemma star_fuel a greedy k x n :
  x <= List.length s -> List.length s - x < n ->
  m ic s (RQuant QStar greedy a) k x = repeat_m (m ic s a) greedy k n x.
Proof.
  intros Hx Hn. simpl. apply repeat_m_fuel; auto using m_ext. lia.
Qed.

(** *** Sequences and literal text *)

Lemma m_mkseq_app l1 l2 k x :
  m ic s (mkseq (l1 ++ l2)) k x = m ic s (mkseq l1) (m ic s (mkseq l2) k) x.
Proof.
  revert k x; induction l1 as [| a l1 IH]; intros k x; simpl; auto.
  apply m_ext_all. intro y. apply IH.
Qed.

Lemma m_lits t l k x :
  m ic s (mkseq (lits t ++ l)) k x =
  if starts_with_ci ic t (skipn x s)
  then m ic s (mkseq l) k (x + List.length t) else None.
Proof.
  revert x; induction t as [| c t IH]; intro x; simpl.
  - now rewrite Nat.add_0_r.
  - unfold m_char. rewrite nth_error_skipn.
    destruct (skipn x s) as [| b h] eqn:E; simpl; auto.
    destruct (Ascii.eqb (canon ic b) (canon ic c)); simpl; auto.
    fold (lits t). rewrite IH, skipn_S_tl, E. simpl.
    now rewrite Nat.add_succ_r.
Qed.

(** *** The start index *)

Lemma exec_from_none r fuel x :
  exec_from ic s r fuel x = None <->
  forall i, x <= i <= x + fuel -> m ic s r Some i = None.
Proof.
  revert x; induction fuel as [| f IH]; intro x; simpl.
  - destruct (m ic s r Some x) eqn:E; split; try discriminate; auto.
    + intro H. rewrite (H x) in E; [ discriminate | lia ].
    + intros _ i Hi. assert (i = x) by lia. congruence.
  - destruct (m ic s r Some x) eqn:E; split; try discriminate.
    + intro H. rewrite (H x) in E; [ discriminate | lia ].
    + intros H i Hi. destruct (Nat.eq_dec i x) as [-> | Hne]; auto.
      apply (proj1 (IH (S x)) H). lia.
    + intro H. apply IH. intros i Hi. apply H. lia.
Qed.

Lemma exec_none r :
  exec ic s r = None <->
  forall i, i <= List.length s -> m ic s r Some i = None.
Proof.
  unfold exec. rewrite exec_from_none. split; intros H i Hi; apply H; lia.
Qed.

Lemma exec_at_0 r e : m ic s r Some 0 = Some e -> exec ic s r = Some (0, e).
Proof.
  unfold exec. intro H. destruct (List.length s); simpl; now rewrite H.
Qed.

Lemma exec_some r i :
  i <= List.length s -> m ic s r Some i <> None -> exec ic s r <> None.
Proof.
  intros Hi Hm He. apply Hm. now apply (proj1 (exec_none r) He).
Qed.

(** *** Greedy [\s*] *)

Lemma repeat_space_S k n x :
  repeat_m (m ic s (RClass false ClsSpace)) true k (S n) x =
  orelse (match nth_error s x with
          | Some c =>
              if is_space c
              then repeat_m (m ic s (RClass false ClsSpace)) true k n (S x)
              else None
          | None => None
          end) (k x).
Proof.
  rewrite repeat_m_S. cbv zeta.
  change (m ic s (RClass false ClsSpace)) with
    (m_char s (fun d => xorb false (in_cls ClsSpace d))).
  unfold m_char at 1. destruct (nth_error s x) as [c |]; auto.
  cbn [xorb in_cls]. destruct (is_space c); auto.
  now rewrite (proj2 (Nat.eqb_neq (S x) x)) by lia.
Qed.

Lemma repeat_space_sound k n x e :
  repeat_m (m ic s (RClass false ClsSpace)) true k n x = Some e ->
  exists z, x <= z /\ spaces s x z /\ k z = Some e.
Proof.
  revert x; induction n as [| n IH]; intros x H; [ discriminate | ].
  rewrite repeat_space_S in H.
  assert (Stay : k x = Some e -> exists z, x <= z /\ spaces s x z /\ k z = Some e).
  { intro Hk. exists x. repeat split; auto. intros i Hi. lia. }
  destruct (nth_error s x) as [c |] eqn:E; auto.
  destruct (is_space c) eqn:Hc; auto.
  destruct (repeat_m _ true k n (S x)) as [e' |] eqn:R; auto.
  simpl in H. injection H as <-. destruct (IH _ R) as (z & Hz & Hs & Hk).
  exists z. repeat split; auto; try lia.
  intros i Hi. destruct (Nat.eq_dec i x) as [-> | Hne]; eauto.
  apply Hs. lia.
Qed.

Lemma repeat_space_complete k n x z :
  x <= z -> spaces s x z -> z - x < n -> k z <> None ->
  repeat_m (m ic s (RClass false ClsSpace)) true k n x <> None.
Proof.
  revert x; induction n as [| n IH]; intros x Hxz Hs Hn Hk; [ lia | ].
  rewrite repeat_space_S.
  destruct (Nat.eq_dec x z) as [-> | Hne].
  - destruct (match nth_error s z with Some _ => _ | None => _ end);
      simpl; auto. discriminate.
  - destruct (Hs x) as (c & -> & Hc); [ lia | ]. rewrite Hc.
    assert (R : repeat_m (m ic s (RClass false ClsSpace)) true k n (S x) <> None).
    { apply IH; try lia; auto. intros i Hi. apply Hs. lia. }
    destruct (repeat_m _ true k n (S x)); simpl; [ discriminate | contradiction ].
Qed.

Lemma spaces_length x z : x < z -> spaces s x z -> z <= List.length s.
Proof.
  intros Hxz Hs. destruct (Hs (z - 1)) as (c & Hc & _); [ lia | ].
  assert (z - 1 < List.length s) by (apply nth_error_Some; congruence). lia.
Qed.

Lemma space_star_sound k x e :
  m ic s space_star k x = Some e ->
  exists z, x <= z /\ spaces s x z /\ k z = Some e.
Proof. apply repeat_space_sound. Qed.

Lemma space_star_complete k x z :
  x <= z -> spaces s x z -> k z <> None -> m ic s space_star k x <> None.
Proof.
  intros Hxz Hs Hk. simpl.
  destruct (Nat.eq_dec x z) as [-> | Hne].
  - apply repeat_space_complete with (z := z); auto. lia.
  - apply repeat_space_complete with (z := z); auto.
    assert (z <= List.length s) by (apply (spaces_length x); auto; lia).
    lia.
Qed.

(** *** The optional colon *)

Lemma opt_colon_accepts x : m ic s (mkseq [opt_colon]) Some x <> None.
Proof.
  simpl. destruct (m_char _ _ _ _); simpl; discriminate.
Qed.

End MatcherFacts.

(** ** The pattern grammar on the sources that [convertToRegExp] builds *)

Lemma prepend_prepend a b r : prepend a (prepend b r) = prepend (a ++ b) r.
Proof. destruct r; simpl; auto. now rewrite app_assoc. Qed.

Lemma prepend_nil r : prepend [] r = r.
Proof. now destruct r. Qed.

Lemma cons_token_prepend t r : cons_token (Ok t) r = prepend [t] r.
Proof. now destruct r. Qed.

(** An escaped text is read back as its characters. *)
Lemma lex_escapeRegExp t rest :
  lex (escapeRegExp t ++ rest) = prepend (term_tokens (lits t)) (lex rest).
Proof.
  induction t as [| c t IH]; simpl.
  - now rewrite prepend_nil.
  - unfold escape_char. destruct (is_syntax c) eqn:Hc.
    + cbn [app lex]. change (is_syntax "\"%char) with true.
      change (is_char "\"%char "\") with true. cbn [negb].
      unfold escape_token. rewrite Hc. cbn [orb]. rewrite IH.
      rewrite cons_token_prepend, prepend_prepend. reflexivity.
    + cbn [app lex]. rewrite Hc. cbn [negb]. rewrite IH.
      rewrite cons_token_prepend, prepend_prepend. reflexivity.
Qed.

Lemma escapeRegExp_plain t : forallb is_word t = true -> escapeRegExp t = t.
Proof.
  induction t as [| c t IH]; simpl; auto.
  intro H. apply andb_true_iff in H as [Hc Ht].
  unfold escape_char. rewrite (is_word_not_syntax _ Hc). simpl. now rewrite IH.
Qed.

Lemma parse_terms l alts seq stack ts :
  parse alts seq stack (term_tokens l ++ ts) = parse alts (rev l ++ seq) stack ts.
Proof.
  revert seq; induction l as [| a l IH]; intro seq; simpl; auto.
  rewrite IH, <- app_assoc. reflexivity.
Qed.

Lemma lex_boundary rest :
  lex (wordBoundary ++ rest) = prepend boundary_tokens (lex rest).
Proof. simpl. now destruct (lex rest). Qed.

Lemma lex_suffix term rest :
  lex (suffix_of term ++ rest) = prepend (suffix_tokens term) (lex rest).
Proof.
  unfold suffix_of, suffix_tokens.
  destruct (test word_end term); simpl; now destruct (lex rest).
Qed.

Lemma lex_prefix l term rest :
  lex (prefix_of l term ++ rest) = prepend (prefix_tokens l term) (lex rest).
Proof.
  unfold prefix_of, prefix_tokens. destruct l.
  - simpl. now destruct (lex rest).
  - destruct (test word_start term); simpl; now destruct (lex rest).
Qed.

Lemma lex_bar rest : lex (str "|" ++ rest) = prepend [TBar] (lex rest).
Proof. simpl. now destruct (lex rest). Qed.

Lemma lex_first l term rest :
  lex (first_source l term ++ rest) = prepend (first_tokens l term) (lex rest).
Proof.
  unfold first_source, first_tokens.
  rewrite <- !app_assoc, lex_prefix, lex_escapeRegExp, lex_suffix.
  rewrite !prepend_prepend. now rewrite <- !app_assoc.
Qed.

Lemma parse_first l term alts stack ts :
  parse alts [] stack (first_tokens l term ++ ts) =
  parse alts (rev (first_terms l term)) stack ts.
Proof.
  unfold first_tokens, first_terms, prefix_tokens, prefix_terms,
    suffix_tokens, suffix_terms.
  assert (P : forall seq,
    parse alts seq stack
      ((term_tokens (lits term)
        ++ (if test word_end term then boundary_tokens else []) ++ colon_tokens) ++ ts) =
    parse alts (rev (lits term ++ boundary_terms (test word_end term) ++ [opt_colon]) ++ seq)
          stack ts).
  { intro seq. rewrite <- app_assoc, parse_terms.
    rewrite !rev_app_distr. destruct (test word_end term); simpl;
      rewrite <- ?app_assoc; reflexivity. }
  destruct l.
  - simpl. rewrite (P [RQuant QStar true (RClass false ClsSpace); RBol]).
    rewrite !rev_app_distr. simpl. rewrite <- !app_assoc. reflexivity.
  - destruct (test word_start term); simpl.
    + rewrite (P [RWordB false]).
      rewrite !rev_app_distr. simpl. rewrite <- !app_assoc. reflexivity.
    + rewrite <- (app_nil_r (rev _)). apply P.
Qed.

Lemma close_single seq : close [] seq = mkseq (rev seq).
Proof. reflexivity. Qed.

(** In the location [start] every term compiles, to this pattern. *)
Lemma compile_first l term :
  compile (first_source l term) = Ok (mkseq (first_terms l term)).
Proof.
  unfold compile. rewrite <- (app_nil_r (first_source l term)), lex_first.
  simpl. rewrite parse_first. simpl. now rewrite close_single, rev_involutive.
Qed.

Lemma mkalt_cons a l : l <> [] -> mkalt (a :: l) = RAlt a (mkalt l).
Proof. destruct l; [ contradiction | reflexivity ]. Qed.

Lemma close_snoc a0 alts seq : close (alts ++ [a0]) seq = RAlt a0 (close alts seq).
Proof.
  unfold close. rewrite app_comm_cons, rev_app_distr. simpl rev at 1.
  cbn [app]. apply mkalt_cons.
  simpl. intro H. apply app_eq_nil in H as [_ H]. discriminate.
Qed.

Lemma parse_under a0 ts : forall alts seq stack,
  parse (top_alts a0 alts stack) seq (bottom a0 stack) ts =
  result_map (RAlt a0) (parse alts seq stack ts).
Proof.
  induction ts as [| t ts IH]; intros alts seq stack.
  - destruct stack as [| [[g pa] ps] st]; simpl.
    + now rewrite close_snoc.
    + destruct st; reflexivity.
  - destruct t as [a | g | | | q]; cbn [parse].
    + apply IH.
    + rewrite <- IH. f_equal.
      destruct stack as [| [[g' pa] ps] st]; reflexivity.
    + destruct stack as [| [[g' pa] ps] st]; [ reflexivity | ].
      rewrite <- IH. destruct st as [| f st]; reflexivity.
    + rewrite <- IH. destruct stack; reflexivity.
    + destruct (quantify q seq); [ apply IH | reflexivity ].
Qed.

(** In the location [anywhere] the pattern is the first alternative or what
    the second source compiles to; it throws where the second source does. *)
Lemma compile_anywhere term :
  compile (pattern_source Anywhere term) =
  result_map (RAlt (mkseq (first_terms Anywhere term)))
             (compile (second_source term)).
Proof.
  unfold compile, pattern_source, eitherOrWordBoundary.
  change (prefix_of Anywhere term ++ escapeRegExp term ++ suffix_of term
            ++ (str "|" ++ wordBoundary) ++ term ++ wordBoundary)
    with (prefix_of Anywhere term ++ escapeRegExp term ++ suffix_of term
            ++ (str "|" ++ second_source term)).
  replace (prefix_of Anywhere term ++ escapeRegExp term ++ suffix_of term
            ++ (str "|" ++ second_source term))
    with (first_source Anywhere term ++ str "|" ++ second_source term)
    by (unfold first_source; now rewrite <- !app_assoc).
  rewrite lex_first, lex_bar, prepend_prepend.
  destruct (lex (second_source term)) as [tb | e |]; simpl; auto.
  rewrite <- app_assoc, parse_first. simpl. rewrite rev_involutive.
  apply (parse_under (mkseq (first_terms Anywhere term)) tb [] [] []).
Qed.

(** ** [test] *)

Lemma exec_from_found ic s r fuel x i e :
  exec_from ic s r fuel x = Some (i, e) ->
  x <= i <= x + fuel /\ m ic s r Some i = Some e.
Proof.
  revert x; induction fuel as [| f IH]; intro x; simpl;
    destruct (m ic s r Some x) eqn:E; try discriminate.
  - intro H. injection H as <- <-. split; [ lia | assumption ].
  - intro H. injection H as <- <-. split; [ lia | assumption ].
  - intro H. apply IH in H as [Hi Hm]. split; [ lia | assumption ].
Qed.

Lemma exec_found ic s r i e :
  exec ic s r = Some (i, e) ->
  i <= List.length s /\ m ic s r Some i = Some e.
Proof.
  unfold exec. intro H. apply exec_from_found in H as [Hi Hm].
  split; [ lia | assumption ].
Qed.

Lemma test_true_iff re s :
  test re s = true <->
  exists i, i <= List.length s /\ m (re_ignoreCase re) s (re_pattern re) Some i <> None.
Proof.
  unfold test. destruct (exec _ s _) as [[i e] |] eqn:E; split.
  - intros _. apply exec_found in E as [Hi Hm]. exists i. split; congruence.
  - reflexivity.
  - discriminate.
  - intros (i & Hi & Hm). exfalso. apply Hm.
    now apply (proj1 (exec_none _ _ _) E).
Qed.

Lemma test_false_iff re s :
  test re s = false <->
  forall i, i <= List.length s -> m (re_ignoreCase re) s (re_pattern re) Some i = None.
Proof.
  unfold test. rewrite <- exec_none.
  destruct (exec _ s _); split; congruence.
Qed.

(** A disjunction matches where one of its sides does. *)
Lemma test_alt a b ic s :
  test {| re_pattern := RAlt a b; re_ignoreCase := ic |} s =
  test {| re_pattern := a; re_ignoreCase := ic |} s
  || test {| re_pattern := b; re_ignoreCase := ic |} s.
Proof.
  destruct (test {| re_pattern := a; re_ignoreCase := ic |} s) eqn:Ta.
  - apply test_true_iff in Ta as (i & Hi & Hm). apply test_true_iff.
    exists i. split; auto. simpl in *.
    destruct (m ic s a Some i); simpl; congruence.
  - destruct (test {| re_pattern := b; re_ignoreCase := ic |} s) eqn:Tb; simpl.
    + apply test_true_iff in Tb as (i & Hi & Hm). apply test_true_iff.
      exists i. split; auto. simpl in *.
      destruct (m ic s a Some i); simpl; [ discriminate | assumption ].
    + apply test_false_iff. intros i Hi.
      pose proof (proj1 (test_false_iff _ _) Ta i Hi) as Ma.
      pose proof (proj1 (test_false_iff _ _) Tb i Hi) as Mb.
      simpl in *. now rewrite Ma.
Qed.

(** [/\w$/u.test(term)]: the last character is a word character. *)
Lemma test_word_end_nil : test word_end [] = false.
Proof. reflexivity. Qed.

Lemma m_word_end s i :
  m (re_ignoreCase word_end) s (re_pattern word_end) Some i =
  match nth_error s i with
  | Some d =>
      if is_word d
      then if Nat.eqb (S i) (List.length s) then Some (S i) else None
      else None
  | None => None
  end.
Proof. reflexivity. Qed.

Lemma test_word_end_snoc init c : test word_end (init ++ [c]) = is_word c.
Proof.
  destruct (is_word c) eqn:Hc.
  - apply test_true_iff. exists (List.length init). split.
    + rewrite length_app. lia.
    + rewrite m_word_end.
      replace (nth_error (init ++ [c]) (List.length init)) with (Some c)
        by (rewrite nth_error_app2, Nat.sub_diag by lia; reflexivity).
      rewrite Hc, length_app, Nat.add_1_r, Nat.eqb_refl.
      discriminate.
  - apply test_false_iff. intros i Hi. rewrite m_word_end.
    destruct (nth_error (init ++ [c]) i) as [d |] eqn:E; auto.
    destruct (is_word d) eqn:Hd; auto.
    destruct (Nat.eqb_spec (S i) (List.length (init ++ [c]))) as [L | L]; auto.
    rewrite length_app in L. simpl in L.
    rewrite nth_error_app2 in E by lia.
    replace (i - List.length init) with 0 in E by lia.
    simpl in E. congruence.
Qed.

(** [/^\w/u.test(term)]: the first character is a word character. *)
Lemma test_word_start_nil : test word_start [] = false.
Proof. reflexivity. Qed.

Lemma test_word_start_cons c t : test word_start (c :: t) = is_word c.
Proof.
  destruct (is_word c) eqn:Hc.
  - apply test_true_iff. exists 0. split; [ simpl; lia | ].
    simpl. unfold m_char. simpl. rewrite Hc. discriminate.
  - apply test_false_iff. intros i Hi. simpl.
    destruct i; simpl; auto. unfold m_char. simpl. now rewrite Hc.
Qed.

(** ** [trim] and [indexOf] *)

Lemma drop_space_decomp s :
  exists a, s = a ++ drop_space s /\ forallb is_space a = true.
Proof.
  induction s as [| c s (a & Ha & Hs)]; simpl.
  - exists []. auto.
  - destruct (is_space c) eqn:Hc.
    + exists (c :: a). simpl. rewrite Hc, Hs. split; auto. now f_equal.
    + exists []. auto.
Qed.

Lemma forallb_rev {A} (p : A -> bool) l : forallb p (rev l) = forallb p l.
Proof.
  induction l as [| a l IH]; simpl; auto.
  rewrite forallb_app, IH. simpl. rewrite andb_true_r. apply andb_comm.
Qed.

Lemma trim_decomp s :
  exists a b, s = a ++ trim s ++ b /\
              forallb is_space a = true /\ forallb is_space b = true.
Proof.
  destruct (drop_space_decomp s) as (a & Ha & Hsa).
  destruct (drop_space_decomp (rev (drop_space s))) as (b & Hb & Hsb).
  exists a, (rev b). repeat split; auto.
  - unfold trim. rewrite <- rev_app_distr, <- Hb, rev_involutive. exact Ha.
  - now rewrite forallb_rev.
Qed.

Lemma indexOf_from_range needle hay i :
  indexOf_from needle hay i = (-1)%Z \/ (Z.of_nat i <= indexOf_from needle hay i)%Z.
Proof.
  revert i; induction hay as [| c h IH]; intro i; simpl.
  - destruct (starts_with needle []); [ right; lia | now left ].
  - destruct (starts_with needle (c :: h)); [ right; lia | ].
    destruct (IH (S i)) as [-> | H]; [ now left | right; lia ].
Qed.

(** [hay.indexOf(needle) === 0]: [hay] begins with [needle]. *)
Lemma indexOf_zero hay needle :
  Z.eqb (indexOf hay needle) 0 = starts_with needle hay.
Proof.
  unfold indexOf. destruct hay as [| c h]; simpl.
  - now destruct (starts_with needle []).
  - destruct (starts_with needle (c :: h)); auto.
    destruct (indexOf_from_range needle h 1) as [-> | H]; auto.
    apply Z.eqb_neq. lia.
Qed.

Lemma starts_with_app needle rest : starts_with needle (needle ++ rest) = true.
Proof.
  induction needle as [| c n IH]; simpl; auto. now rewrite Ascii.eqb_refl.
Qed.

(** ** Word boundaries in a split input *)

Lemma word_boundary_eq s x :
  word_boundary s x = xorb (word_before s x) (word_at s x).
Proof. reflexivity. Qed.

Lemma word_at_app pre post :
  word_at (pre ++ post) (List.length pre) = head_word post.
Proof.
  unfold word_at. rewrite nth_error_app2, Nat.sub_diag by lia.
  now destruct post.
Qed.

Lemma word_before_app pre post :
  word_before (pre ++ post) (List.length pre) = head_word (rev pre).
Proof.
  destruct pre as [| c pre] using rev_ind; [ reflexivity | ].
  rewrite length_app, Nat.add_1_r, rev_app_distr. simpl.
  rewrite <- app_assoc. apply (word_at_app pre (c :: post)).
Qed.

Lemma word_boundary_app pre post :
  word_boundary (pre ++ post) (List.length pre) =
  xorb (head_word (rev pre)) (head_word post).
Proof.
  now rewrite word_boundary_eq, word_before_app, word_at_app.
Qed.

Lemma spaces_app ws rest :
  forallb is_space ws = true -> spaces (ws ++ rest) 0 (List.length ws).
Proof.
  intros H i Hi. destruct (nth_error ws i) as [c |] eqn:E.
  - exists c. split.
    + rewrite nth_error_app1 by lia. exact E.
    + apply (proj1 (forallb_forall _ _) H). eapply nth_error_In; eauto.
  - apply nth_error_None in E. lia.
Qed.

Lemma starts_with_ci_refl ic t rest : starts_with_ci ic t (t ++ rest) = true.
Proof. now apply starts_with_ci_app. Qed.

Lemma starts_with_ci_nth ic t : forall s i j d,
  starts_with_ci ic t (skipn i s) = true ->
  nth_error t j = Some d ->
  exists c, nth_error s (i + j) = Some c /\ canon ic c = canon ic d.
Proof.
  induction t as [| a t IH]; intros s i j d H Hj.
  - destruct j; discriminate.
  - simpl in H. destruct (skipn i s) as [| b h] eqn:E; [ discriminate | ].
    apply andb_true_iff in H as [Hb Ht]. apply Ascii.eqb_eq in Hb.
    destruct j as [| j]; simpl in Hj.
    + injection Hj as <-. exists b. split; auto.
      now rewrite Nat.add_0_r, nth_error_skipn, E.
    + assert (Eh : skipn (S i) s = h) by now rewrite skipn_S_tl, E.
      rewrite <- Eh in Ht. destruct (IH s (S i) j d Ht Hj) as (c & Hc & Hcd).
      exists c. split; auto. now rewrite Nat.add_succ_r.
Qed.

(** Where a term made of word characters occurs, the input has word
    characters. *)
Lemma occurrence_word ic t s i j :
  forallb is_word t = true ->
  starts_with_ci ic t (skipn i s) = true ->
  j < List.length t -> word_at s (i + j) = true.
Proof.
  intros Hw H Hj. destruct (nth_error t j) as [d |] eqn:E.
  - destruct (starts_with_ci_nth _ _ _ _ _ _ H E) as (c & Hc & Hcd).
    unfold word_at. rewrite Hc, (is_word_canon _ _ _ Hcd).
    apply (proj1 (forallb_forall _ _) Hw). eapply nth_error_In; eauto.
  - apply nth_error_None in E. lia.
Qed.

(** ** The compiled matchers *)

Lemma convertToRegExp_start term :
  convertToRegExp Start term = Ok (first_regexp Start term).
Proof.
  unfold convertToRegExp, RegExp.
  change (pattern_source Start term) with (first_source Start term).
  now rewrite compile_first.
Qed.

(** The second source of a term made of word characters. *)
Lemma compile_second_plain term :
  forallb is_word term = true ->
  compile (second_source term) = Ok (mkseq (second_terms term)).
Proof.
  intro H. unfold compile, second_source.
  rewrite lex_boundary. rewrite <- (escapeRegExp_plain _ H) at 1.
  rewrite lex_escapeRegExp, <- (app_nil_r wordBoundary), lex_boundary.
  simpl lex. simpl prepend. cbn [bind boundary_tokens app].
  change (TTerm (RWordB false) :: term_tokens (lits term) ++ [TTerm (RWordB false)])
    with (term_tokens [RWordB false] ++ term_tokens (lits term) ++ [TTerm (RWordB false)]).
  rewrite !parse_terms. simpl. rewrite close_single.
  cbn [rev]. rewrite rev_app_distr, rev_involutive. reflexivity.
Qed.

Lemma convertToRegExp_anywhere_plain term :
  forallb is_word term = true ->
  convertToRegExp Anywhere term =
  Ok {| re_pattern := RAlt (mkseq (first_terms Anywhere term))
                           (mkseq (second_terms term));
        re_ignoreCase := true |}.
Proof.
  intro H. unfold convertToRegExp, RegExp.
  now rewrite compile_anywhere, (compile_second_plain _ H).
Qed.

(** *** What a match of each alternative says about the input *)

Lemma boundary_terms_inv ic s b l k x e :
  m ic s (mkseq (boundary_terms b ++ l)) k x = Some e ->
  (b = true -> word_boundary s x = true) /\ m ic s (mkseq l) k x = Some e.
Proof.
  destruct b; simpl.
  - destruct (word_boundary s x); [ auto | discriminate ].
  - split; [ discriminate | assumption ].
Qed.

Lemma suffix_terms_inv ic s term x e :
  m ic s (mkseq (suffix_terms term)) Some x = Some e ->
  test word_end term = true -> word_boundary s x = true.
Proof.
  unfold suffix_terms. intros H. apply boundary_terms_inv in H. tauto.
Qed.

Lemma start_match_inv s term i e :
  m true s (mkseq (first_terms Start term)) Some i = Some e ->
  exists z, spaces s 0 z /\
            starts_with_ci true term (skipn z s) = true /\
            (test word_end term = true ->
             word_boundary s (z + List.length term) = true).
Proof.
  unfold first_terms. cbn [prefix_terms app mkseq fold_right m].
  destruct (Nat.eqb_spec i 0) as [-> | Hne]; [ | discriminate ].
  intro H. apply space_star_sound in H as (z & _ & Hs & Hk).
  exists z. split; auto.
  change (fold_right RSeq REmpty (lits term ++ suffix_terms term))
    with (mkseq (lits term ++ suffix_terms term)) in Hk.
  rewrite m_lits in Hk.
  destruct (starts_with_ci true term (skipn z s)); [ | discriminate ].
  split; auto. eapply suffix_terms_inv; eauto.
Qed.

Lemma first_anywhere_inv s term i e :
  m true s (mkseq (first_terms Anywhere term)) Some i = Some e ->
  starts_with_ci true term (skipn i s) = true /\
  (test word_start term = true -> word_boundary s i = true) /\
  (test word_end term = true ->
   word_boundary s (i + List.length term) = true).
Proof.
  unfold first_terms. cbn [prefix_terms]. intro H.
  apply boundary_terms_inv in H as [Hb H].
  rewrite m_lits in H.
  destruct (starts_with_ci true term (skipn i s)); [ | discriminate ].
  repeat split; auto. eapply suffix_terms_inv; eauto.
Qed.

Lemma second_inv s term i e :
  m true s (mkseq (second_terms term)) Some i = Some e ->
  starts_with_ci true term (skipn i s) = true /\
  word_boundary s i = true /\
  word_boundary s (i + List.length term) = true.
Proof.
  unfold second_terms. intro H.
  apply (boundary_terms_inv true s true (lits term ++ [RWordB false])) in H
    as [Hb H].
  rewrite m_lits in H.
  destruct (starts_with_ci true term (skipn i s)); [ | discriminate ].
  apply (boundary_terms_inv true s true []) in H as [He _].
  repeat split; auto.
Qed.

(** *** The location [start] on a comment that begins with the term *)

Lemma suffix_terms_accept ic s term x :
  (test word_end term = true -> word_boundary s x = true) ->
  m ic s (mkseq (suffix_terms term)) Some x <> None.
Proof.
  unfold suffix_terms. intro H. destruct (test word_end term); simpl mkseq.
  - cbn [app mkseq fold_right m]. rewrite H by reflexivity. simpl xorb.
    cbv iota. apply opt_colon_accepts.
  - apply opt_colon_accepts.
Qed.

Lemma word_end_last term :
  test word_end term = true -> head_word (rev term) = true.
Proof.
  destruct term as [| c init] using rev_ind.
  - rewrite test_word_end_nil. discriminate.
  - rewrite test_word_end_snoc, rev_app_distr. auto.
Qed.

Lemma start_matches ws term rest :
  forallb is_space ws = true ->
  (test word_end term = true -> next_not_word rest = true) ->
  test (first_regexp Start term) (ws ++ term ++ rest) = true.
Proof.
  intros Hws Hrest. apply test_true_iff. exists 0. split; [ lia | ].
  simpl re_pattern. simpl re_ignoreCase.
  unfold first_terms. cbn [prefix_terms app mkseq fold_right m Nat.eqb].
  apply space_star_complete with (z := List.length ws); [ lia | | ].
  - now apply spaces_app.
  - change (fold_right RSeq REmpty (lits term ++ suffix_terms term))
      with (mkseq (lits term ++ suffix_terms term)).
    rewrite m_lits, skipn_length_app, starts_with_ci_refl.
    apply suffix_terms_accept. intro Hw.
    rewrite <- length_app, app_assoc, word_boundary_app.
    rewrite rev_app_distr.
    pose proof (word_end_last _ Hw) as Hl.
    destruct (rev term) as [| c r]; [ discriminate | ].
    simpl in *. rewrite Hl. specialize (Hrest Hw).
    unfold next_not_word in Hrest. now destruct (head_word rest).
Qed.

(** The location [start], in full: whitespace, then the term in some letter
    case, then a word boundary if the term ends in a word character. *)
Lemma start_match_iff term c :
  test (first_regexp Start term) c = true <->
  exists z, spaces c 0 z /\ occurs_at term c z = true /\
            (test word_end term = true ->
             word_boundary c (z + List.length term) = true).
Proof.
  split.
  - intro H. apply test_true_iff in H as (i & _ & H).
    simpl re_pattern in H. simpl re_ignoreCase in H.
    destruct (m true c (mkseq (first_terms Start term)) Some i) eqn:M;
      [ | contradiction ].
    now apply start_match_inv in M.
  - intros (z & Hs & Ho & Hb). apply test_true_iff. exists 0. split; [ lia | ].
    simpl re_pattern. simpl re_ignoreCase.
    unfold first_terms. cbn [prefix_terms app mkseq fold_right m Nat.eqb].
    apply space_star_complete with (z := z); [ lia | assumption | ].
    change (fold_right RSeq REmpty (lits term ++ suffix_terms term))
      with (mkseq (lits term ++ suffix_terms term)).
    unfold occurs_at in Ho. rewrite m_lits, Ho.
    now apply suffix_terms_accept.
Qed.

(** ** Occurrences of a term in a comment *)

Lemma in_positions c i : In i (positions c) <-> i <= List.length c.
Proof. unfold positions. rewrite in_seq. lia. Qed.

(** [occurs_at] says what it should: the comment is some text, then the
    term in some letter case, then some text. *)
Lemma occurs_at_spec t c i :
  i <= List.length c ->
  occurs_at t c i = true <->
  exists pre mid post,
    c = pre ++ mid ++ post /\ List.length pre = i /\ map fold mid = map fold t.
Proof.
  intro Hi. unfold occurs_at. split.
  - intro H. destruct (skipn_split c i Hi) as (pre & Hc & Hl).
    destruct (starts_with_ci_inv true t _ H) as (mid & post & Hs & Hm).
    exists pre, mid, post. rewrite <- Hs. auto.
  - intros (pre & mid & post & -> & <- & Hm).
    rewrite skipn_length_app. now apply starts_with_ci_app.
Qed.

Lemma starts_with_ci_length ic t h :
  starts_with_ci ic t h = true -> List.length t <= List.length h.
Proof.
  revert h; induction t as [| a t IH]; intros [| b h] H; simpl in *;
    try discriminate; try lia.
  apply andb_true_iff in H as [_ H]. apply IH in H. lia.
Qed.

Lemma occurs_at_bound t c i :
  t <> [] -> occurs_at t c i = true -> i + List.length t <= List.length c.
Proof.
  intros Ht H. apply starts_with_ci_length in H. rewrite length_skipn in H.
  destruct t; [ contradiction | simpl in *; lia ].
Qed.

Lemma plain_term_ends t :
  t <> [] -> forallb is_word t = true ->
  test word_start t = true /\ test word_end t = true.
Proof.
  intros Ht Hw. split.
  - destruct t as [| c t]; [ contradiction | ].
    rewrite test_word_start_cons. simpl in Hw.
    now apply andb_true_iff in Hw as [Hc _].
  - destruct t as [| c init] using rev_ind; [ contradiction | ].
    rewrite test_word_end_snoc. rewrite forallb_app in Hw.
    apply andb_true_iff in Hw as [_ Hc]. simpl in Hc.
    now rewrite andb_true_r in Hc.
Qed.

Lemma boundary_before_occurrence t c i :
  t <> [] -> forallb is_word t = true -> occurs_at t c i = true ->
  word_boundary c i = negb (word_before c i).
Proof.
  intros Ht Hw H. rewrite word_boundary_eq.
  assert (W : word_at c (i + 0) = true).
  { apply (occurrence_word true t); auto. destruct t; [ contradiction | simpl; lia ]. }
  rewrite Nat.add_0_r in W. rewrite W. now destruct (word_before c i).
Qed.

Lemma boundary_after_occurrence t c i :
  t <> [] -> forallb is_word t = true -> occurs_at t c i = true ->
  word_boundary c (i + List.length t) = negb (word_after t c i).
Proof.
  intros Ht Hw H. rewrite word_boundary_eq. unfold word_after.
  assert (L : List.length t = S (List.length t - 1))
    by (destruct t; [ contradiction | simpl; lia ]).
  assert (W : word_at c (i + (List.length t - 1)) = true).
  { apply (occurrence_word true t); auto. lia. }
  rewrite L at 1. rewrite Nat.add_succ_r. cbn [word_before]. rewrite W.
  now destruct (word_at c (i + List.length t)).
Qed.

Lemma spaces_not_word_before s z : spaces s 0 z -> word_before s z = false.
Proof.
  intro H. destruct z as [| p]; [ reflexivity | ].
  destruct (H p) as (c & Hc & Hs); [ lia | ].
  simpl. unfold word_at. rewrite Hc. now apply is_space_not_word.
Qed.

Lemma only_inside_inv t c :
  only_inside_longer_word t c = true ->
  forallb is_word t = true /\
  forall i, i <= List.length c -> occurs_at t c i = true ->
            inside_longer_word t c i = true.
Proof.
  unfold only_inside_longer_word. intro H.
  apply andb_true_iff in H as [H Hall]. apply andb_true_iff in H as [Hw _].
  split; auto. intros i Hi Ho.
  pose proof (proj1 (forallb_forall _ _) Hall i (proj2 (in_positions c i) Hi)) as Hin.
  cbv beta in Hin. now rewrite Ho in Hin.
Qed.

Lemma no_start_match_inside t c :
  t <> [] -> only_inside_longer_word t c = true ->
  test (first_regexp Start t) c = false.
Proof.
  intros Ht H. apply only_inside_inv in H as [Hw Hall].
  apply test_false_iff. intros i Hi. simpl re_pattern. simpl re_ignoreCase.
  destruct (m true c (mkseq (first_terms Start t)) Some i) as [e |] eqn:M; auto.
  exfalso. apply start_match_inv in M as (z & Hs & Ho & Hb).
  pose proof (occurs_at_bound t c z Ht Ho) as Hz.
  assert (Hin : inside_longer_word t c z = true) by (apply Hall; auto; lia).
  unfold inside_longer_word in Hin.
  rewrite (spaces_not_word_before _ _ Hs) in Hin. simpl in Hin.
  rewrite (boundary_after_occurrence t c z Ht Hw Ho), Hin in Hb.
  specialize (Hb (proj2 (plain_term_ends t Ht Hw))). discriminate.
Qed.

Lemma no_anywhere_match_inside t c :
  t <> [] -> only_inside_longer_word t c = true ->
  test {| re_pattern := RAlt (mkseq (first_terms Anywhere t))
                             (mkseq (second_terms t));
          re_ignoreCase := true |} c = false.
Proof.
  intros Ht H. apply only_inside_inv in H as [Hw Hall].
  destruct (plain_term_ends t Ht Hw) as [Ws We].
  assert (No : forall i, i <= List.length c -> occurs_at t c i = true ->
                 word_boundary c i = true ->
                 word_boundary c (i + List.length t) = true -> False).
  { intros i Hi Ho B1 B2. specialize (Hall i Hi Ho).
    rewrite (boundary_before_occurrence t c i Ht Hw Ho) in B1.
    rewrite (boundary_after_occurrence t c i Ht Hw Ho) in B2.
    unfold inside_longer_word in Hall.
    destruct (word_before c i), (word_after t c i); discriminate. }
  rewrite test_alt. apply orb_false_iff. split; apply test_false_iff;
    intros i Hi; simpl re_pattern; simpl re_ignoreCase.
  - destruct (m true c (mkseq (first_terms Anywhere t)) Some i) eqn:M; auto.
    exfalso. apply first_anywhere_inv in M as (Ho & B1 & B2).
    apply (No i); auto.
  - destruct (m true c (mkseq (second_terms t)) Some i) eqn:M; auto.
    exfalso. apply second_inv in M as (Ho & B1 & B2).
    apply (No i); auto.
Qed.

(** * The claims *)

(** C1, as the code has it.  In the location [start] the matcher of every
    term [T] matches every comment that is whitespace, then [T], then
    nothing or a character that is not a word character.  For every term [T]
    that is not empty and every comment that contains [T] only inside longer
    words, neither the matcher of the location [start] nor that of the
    location [anywhere] matches. *)
Theorem C1_start_match_and_no_match_inside_a_word :
  (forall T ws rest,
      forallb is_space ws = true -> next_not_word rest = true ->
      matches Start T (ws ++ T ++ rest) = Ok true) /\
  (forall T C,
      T <> [] -> only_inside_longer_word T C = true ->
      matches Start T C = Ok false /\ matches Anywhere T C = Ok false).
Proof.
  split.
  - intros T ws rest Hws Hrest. unfold matches.
    rewrite convertToRegExp_start. simpl. f_equal.
    apply start_matches; auto.
  - intros T C Ht H. unfold matches. split.
    + rewrite convertToRegExp_start. simpl. f_equal.
      now apply no_start_match_inside.
    + pose proof (only_inside_inv _ _ H) as [Hw _].
      rewrite (convertToRegExp_anywhere_plain _ Hw). simpl. f_equal.
      now apply no_anywhere_match_inside.
Qed.

Lemma C1_witness :
  (forallb is_space (str "  ") = true /\ next_not_word (str ": later") = true /\
   matches Start (str "todo") (str "  " ++ str "todo" ++ str ": later") = Ok true) /\
  (str "todo" <> [] /\ only_inside_longer_word (str "todo") (str "mastodon") = true /\
   matches Start (str "todo") (str "mastodon") = Ok false /\
   matches Anywhere (str "todo") (str "mastodon") = Ok false).
Proof.
  destruct C1_start_match_and_no_match_inside_a_word as [A B].
  split.
  - split; [ reflexivity | split; [ reflexivity | ] ].
    apply (A (str "todo") (str "  ") (str ": later")); reflexivity.
  - split; [ discriminate | split; [ reflexivity | ] ].
    apply (B (str "todo") (str "mastodon")); [ discriminate | reflexivity ].
Defined.

(** C1 as the spec states it fails for the empty term: every index of
    ['mastodon'] holds the empty string inside that longer word, and the
    matcher of the location [start], compiled from [^\s*:?], matches. *)
Lemma C1_counterexample_empty_term :
  only_inside_longer_word (str "") (str "mastodon") = true /\
  matches Start (str "") (str "mastodon") = Ok true.
Proof. split; reflexivity. Qed.

(** C8.  A term whose last character is not a word character gets the
    suffix [:?] alone, without [\b]: in the location [start] its matcher
    matches whitespace, then the term, then anything.  So ['FIX!'] matches
    the comment ['FIX! blah']. *)
Theorem C8_no_boundary_after_punctuation :
  (forall init c,
      is_word c = false ->
      suffix_of (init ++ [c]) = str ":?" /\
      forall ws rest,
        forallb is_space ws = true ->
        matches Start (init ++ [c]) (ws ++ (init ++ [c]) ++ rest) = Ok true) /\
  matches Start (str "FIX!") (str "FIX! blah") = Ok true.
Proof.
  assert (A : forall init c,
      is_word c = false ->
      suffix_of (init ++ [c]) = str ":?" /\
      forall ws rest,
        forallb is_space ws = true ->
        matches Start (init ++ [c]) (ws ++ (init ++ [c]) ++ rest) = Ok true).
  { intros init c Hc.
    assert (E : test word_end (init ++ [c]) = false)
      by now rewrite test_word_end_snoc.
    split.
    - unfold suffix_of. now rewrite E.
    - intros ws rest Hws. unfold matches. rewrite convertToRegExp_start.
      simpl. f_equal. apply start_matches; auto. rewrite E. discriminate. }
  split; [ exact A | ].
  destruct (A (str "FIX") "!"%char eq_refl) as [_ M].
  exact (M [] (str " blah") eq_refl).
Qed.

Lemma C8_witness :
  is_word "!"%char = false /\
  suffix_of (str "FIX" ++ ["!"%char]) = str ":?" /\
  forallb is_space (str "  ") = true /\
  matches Start (str "FIX!") (str "  FIX!!") = Ok true.
Proof.
  destruct C8_no_boundary_after_punctuation as [A _].
  destruct (A (str "FIX") "!"%char eq_refl) as [Hsuffix M].
  split; [ reflexivity | ]. split; [ exact Hsuffix | ].
  split; [ reflexivity | ].
  exact (M (str "  ") (str "!") eq_refl).
Defined.

(** C7.  In the location [anywhere] the source of the pattern is the first
    alternative (prefix rule, escaped term, suffix rule), a bar, and the
    second alternative (word boundary, the term as it is, word boundary).
    The first alternative always compiles.  Where the second compiles, the
    pattern compiles and matches a comment exactly when one of the two
    does; where the second throws, [convertToRegExp] throws.  The second
    alternative holds the term unescaped and has no [:?]. *)
Theorem C7_anywhere_is_an_alternation :
  forall term,
    pattern_source Anywhere term =
      (prefix_of Anywhere term ++ escapeRegExp term ++ suffix_of term)
      ++ str "|" ++ (str "\b" ++ term ++ str "\b") /\
    RegExp (first_source Anywhere term) true = Ok (first_regexp Anywhere term) /\
    (forall r2,
        RegExp (second_source term) true = Ok r2 ->
        exists re,
          convertToRegExp Anywhere term = Ok re /\
          forall comment,
            test re comment =
            test (first_regexp Anywhere term) comment || test r2 comment) /\
    (forall e,
        RegExp (second_source term) true = Throw e ->
        convertToRegExp Anywhere term = Throw e).
Proof.
  intro term. split; [ | split; [ | split ] ].
  - unfold pattern_source, eitherOrWordBoundary, wordBoundary.
    now rewrite <- !app_assoc.
  - unfold RegExp. now rewrite compile_first.
  - intros r2 H. unfold convertToRegExp, RegExp in *.
    rewrite compile_anywhere.
    destruct (compile (second_source term)) as [p | e |]; try discriminate.
    simpl in H. injection H as <-. simpl. eexists. split; [ reflexivity | ].
    intro comment. apply test_alt.
  - intros e H. unfold convertToRegExp, RegExp in *.
    rewrite compile_anywhere.
    destruct (compile (second_source term)) as [p | e' |]; try discriminate.
    simpl in *. congruence.
Qed.

Lemma C7_witness :
  exists r2 re,
    RegExp (second_source (str "todo")) true = Ok r2 /\
    convertToRegExp Anywhere (str "todo") = Ok re /\
    test re (str " a todo: here") =
    test (first_regexp Anywhere (str "todo")) (str " a todo: here")
    || test r2 (str " a todo: here").
Proof.
  destruct (C7_anywhere_is_an_alternation (str "todo")) as (_ & _ & A & _).
  destruct (A {| re_pattern := mkseq (second_terms (str "todo"));
                 re_ignoreCase := true |} eq_refl) as (re & Hre & Ht).
  eexists. exists re. split; [ reflexivity | ]. split; [ exact Hre | apply Ht ].
Defined.

(** The term in the second alternative is read as a pattern: ['a.c'] flags
    a comment that holds ['abc'], and ['c++'] is refused by [new RegExp]. *)
Example anywhere_term_read_as_pattern :
  matches Anywhere (str "a.c") (str " see abc") = Ok true /\
  matches Start (str "a.c") (str "abc") = Ok false /\
  convertToRegExp Anywhere (str "c++") = Throw SyntaxError.
Proof. split; [ reflexivity | split; reflexivity ]. Qed.

(** ** Directive comments *)

Lemma head_word_app x y :
  head_word (x ++ y) = match x with [] => head_word y | _ :: _ => head_word x end.
Proof. now destruct x. Qed.

Lemma spaces_head_word a : forallb is_space a = true -> head_word a = false.
Proof.
  destruct a as [| c a]; simpl; auto. intro H.
  apply andb_true_iff in H as [Hc _]. now apply is_space_not_word.
Qed.

Lemma head_word_padded x pad :
  forallb is_space pad = true -> head_word x = false ->
  head_word (x ++ pad) = false.
Proof.
  intros Hp Hx. rewrite head_word_app. destruct x; auto.
  now apply spaces_head_word.
Qed.

Lemma selfConfigRegEx_pattern :
  selfConfigRegEx =
  {| re_pattern := mkseq (second_terms token_text); re_ignoreCase := false |}.
Proof. reflexivity. Qed.

Lemma boundary_terms_accept ic s l k x :
  word_boundary s x = true ->
  m ic s (mkseq (boundary_terms true ++ l)) k x = m ic s (mkseq l) k x.
Proof. intro H. simpl. now rewrite H. Qed.

Lemma second_accepts ic s t i :
  word_boundary s i = true ->
  starts_with_ci ic t (skipn i s) = true ->
  word_boundary s (i + List.length t) = true ->
  m ic s (mkseq (second_terms t)) Some i <> None.
Proof.
  intros B1 Ho B2.
  change (second_terms t)
    with (boundary_terms true ++ lits t ++ boundary_terms true ++ []).
  rewrite boundary_terms_accept, m_lits, Ho, boundary_terms_accept by assumption.
  discriminate.
Qed.

(** The text between two places that are not word characters. *)
Lemma test_selfConfigRegEx pre post :
  head_word (rev pre) = false -> head_word post = false ->
  test selfConfigRegEx (pre ++ token_text ++ post) = true.
Proof.
  intros Hpre Hpost. rewrite selfConfigRegEx_pattern.
  apply test_true_iff. exists (List.length pre). split.
  - rewrite length_app. lia.
  - apply (second_accepts false (pre ++ token_text ++ post) token_text).
    + now rewrite word_boundary_app, Hpre.
    + now rewrite skipn_length_app, starts_with_ci_refl.
    + rewrite <- length_app, app_assoc, word_boundary_app, Hpost.
      now rewrite rev_app_distr.
Qed.

Lemma first_message_exempt r regexps comment :
  commentHasIssue r comment = true -> first_message r regexps comment = None.
Proof.
  intro H. induction regexps as [| re rest IH]; simpl; auto.
  now rewrite H, andb_false_r.
Qed.

(** C9.  Whatever the terms, a single-line comment whose trimmed text
    begins with ['eslint-'] and holds the token ['no-warning-comments']
    (not inside a longer word) is never reported. *)
Theorem C9_own_directive_is_never_reported :
  forall (r : rule) (n : node) (pre post : jsstring),
    type n = Line ->
    starts_with (str "eslint-") (trim (value n)) = true ->
    trim (value n) = pre ++ str "no-warning-comments" ++ post ->
    head_word (rev pre) = false -> head_word post = false ->
    checkComment r n = None.
Proof.
  intros r n pre post Hty Hstart Htok Hpre Hpost. unfold checkComment.
  assert (D : isDirectiveComment n = true).
  { unfold isDirectiveComment. now rewrite Hty, indexOf_zero, Hstart. }
  assert (T : test selfConfigRegEx (value n) = true).
  { destruct (trim_decomp (value n)) as (a & b & Hv & Ha & Hb).
    rewrite Hv, Htok.
    replace (a ++ (pre ++ str "no-warning-comments" ++ post) ++ b)
      with ((a ++ pre) ++ token_text ++ (post ++ b))
      by (unfold token_text; now rewrite <- !app_assoc).
    apply test_selfConfigRegEx.
    - rewrite rev_app_distr. apply head_word_padded; auto.
      now rewrite forallb_rev.
    - now apply head_word_padded. }
  now rewrite D, T.
Qed.

Lemma C9_witness :
  checkComment {| warningRegExps := [first_regexp Start (str "eslint")];
                  repoUrlRegEx := None |}
               (line " eslint-disable-next-line no-warning-comments") = None.
Proof.
  apply (C9_own_directive_is_never_reported _
           (line " eslint-disable-next-line no-warning-comments")
           (str "eslint-disable-next-line ") (str "")); reflexivity.
Defined.

(** ** The message *)

Lemma first_message_find r regexps comment :
  first_message r regexps comment =
  option_map (fun re => ellipsize (remainder re comment) 60)
    (find (fun re => test re comment && negb (commentHasIssue r comment))
          regexps).
Proof.
  induction regexps as [| re rest IH]; simpl; auto.
  destruct (test re comment && negb (commentHasIssue r comment)); auto.
Qed.

Lemma message_of_hit r comment re :
  hit r comment = Some re ->
  getUndocumentedTodoMessage r comment =
  Some (ellipsize (remainder re comment) 60).
Proof.
  unfold hit, getUndocumentedTodoMessage. intro H.
  now rewrite first_message_find, H.
Qed.

(** *** The trimmed text *)

Lemma drop_space_app_spaces a x :
  forallb is_space a = true -> drop_space (a ++ x) = drop_space x.
Proof.
  induction a as [| c a IH]; simpl; intro H; [ reflexivity | ].
  apply andb_true_iff in H as [Hc Ha]. rewrite Hc. now apply IH.
Qed.

Lemma drop_space_edge x : edge_space x = false -> drop_space x = x.
Proof. destruct x as [| c x]; simpl; intro H; [ | rewrite H ]; reflexivity. Qed.

(** [trim] gives the one text without whitespace at its ends that the
    argument holds between whitespace. *)
Lemma trim_unique a rem b :
  forallb is_space a = true -> forallb is_space b = true ->
  trimmed rem = true ->
  trim (a ++ rem ++ b) = rem.
Proof.
  intros Ha Hb Ht. unfold trimmed in Ht.
  apply andb_true_iff in Ht as [H1 H2].
  apply negb_true_iff in H1. apply negb_true_iff in H2.
  unfold trim. rewrite (drop_space_app_spaces _ _ Ha).
  destruct rem as [| c rem].
  - simpl. rewrite <- (app_nil_r b) at 1.
    rewrite (drop_space_app_spaces _ _ Hb). reflexivity.
  - assert (E : drop_space ((c :: rem) ++ b) = (c :: rem) ++ b).
    { simpl in *. now rewrite H1. }
    rewrite E, rev_app_distr.
    rewrite drop_space_app_spaces by now rewrite forallb_rev.
    rewrite (drop_space_edge _ H2). apply rev_involutive.
Qed.

Lemma remainder_of_span re comment i e a rem b :
  exec (re_ignoreCase re) comment (re_pattern re) = Some (i, e) ->
  firstn i comment ++ skipn e comment = a ++ rem ++ b ->
  forallb is_space a = true -> forallb is_space b = true ->
  trimmed rem = true ->
  remainder re comment = rem.
Proof.
  intros He Hd Ha Hb Ht. unfold remainder, replace_empty.
  rewrite He, Hd. now apply trim_unique.
Qed.

(** *** The loop of [ellipsize] *)

Lemma skipn_nth_cons {A} (l : list A) i :
  i < List.length l ->
  exists c, nth_error l i = Some c /\ skipn i l = c :: skipn (S i) l.
Proof.
  revert i. induction l as [| x l IH]; intros i H; simpl in H; [ lia | ].
  destruct i as [| i]; [ exists x; split; reflexivity | ].
  destruct (IH i) as (c & Hn & Hs); [ lia | ].
  exists c. split; [ exact Hn | exact Hs ].
Qed.

Lemma no_break_at s from n k :
  no_break s from n = true -> from <= k < from + n -> break_at s k = false.
Proof.
  unfold no_break. intros H Hk.
  apply negb_true_iff.
  apply (proj1 (forallb_forall _ _) H k). apply in_seq. lia.
Qed.

(** A text that ends before the limit is reached comes back whole. *)
Lemma ellipsize_loop_short str0 max rest :
  forall i last,
    List.length rest + i <= max ->
    ellipsize_loop str0 rest max i last = str0.
Proof.
  induction rest as [| c rest IH]; intros i last H; [ reflexivity | ].
  simpl in H. cbn [ellipsize_loop].
  rewrite (proj2 (Nat.ltb_lt i max)) by lia.
  apply IH. lia.
Qed.

(** With no space and no hyphen at the indexes 1 to [max], the loop keeps
    [max - 1] characters. *)
Lemma ellipsize_loop_no_break str0 max :
  max < List.length str0 ->
  (forall k, 1 <= k <= max -> break_at str0 k = false) ->
  forall n i,
    n = max - i -> i <= max ->
    ellipsize_loop str0 (skipn i str0) max i 0 =
    firstn (max - 1) str0 ++ ellipse.
Proof.
  intros Hlen Hno n. induction n as [| n IH]; intros i Hn Hi.
  - assert (i = max) by lia. subst i.
    destruct (skipn_nth_cons str0 max Hlen) as (c & Hc & Hs).
    rewrite Hs. cbn [ellipsize_loop]. rewrite Nat.ltb_irrefl.
    assert (E : (if is_break c then max else 0) = 0).
    { destruct max as [| m]; [ now destruct (is_break c) | ].
      specialize (Hno (S m) ltac:(lia)). unfold break_at in Hno.
      rewrite Hc in Hno. now rewrite Hno. }
    rewrite E. reflexivity.
  - destruct (skipn_nth_cons str0 i ltac:(lia)) as (c & Hc & Hs).
    rewrite Hs. cbn [ellipsize_loop].
    rewrite (proj2 (Nat.ltb_lt i max)) by lia.
    assert (E : (if is_break c then i else 0) = 0).
    { destruct i as [| i']; [ now destruct (is_break c) | ].
      specialize (Hno (S i') ltac:(lia)). unfold break_at in Hno.
      rewrite Hc in Hno. now rewrite Hno. }
    rewrite E. apply IH; lia.
Qed.

(** With a space or a hyphen at the index [j], between 1 and [max], and none
    after it up to [max], the loop cuts at [j]. *)
Lemma ellipsize_loop_break str0 max j :
  max < List.length str0 ->
  1 <= j <= max ->
  break_at str0 j = true ->
  (forall k, j < k <= max -> break_at str0 k = false) ->
  forall n i last,
    n = max - i -> i <= max ->
    (j < i -> last = j) ->
    ellipsize_loop str0 (skipn i str0) max i last =
    firstn j str0 ++ ellipse.
Proof.
  intros Hlen Hj Hb Hno n.
  assert (Step : forall i last c,
             i <= max -> nth_error str0 i = Some c ->
             (j < i -> last = j) ->
             j <= i -> (if is_break c then i else last) = j).
  { intros i last c Hi Hc Hl Hji.
    destruct (Nat.eq_dec i j) as [-> | Hne].
    - unfold break_at in Hb. rewrite Hc in Hb. now rewrite Hb.
    - specialize (Hno i ltac:(lia)). unfold break_at in Hno.
      rewrite Hc in Hno. rewrite Hno. apply Hl. lia. }
  induction n as [| n IH]; intros i last Hn Hi Hl.
  - assert (i = max) by lia. subst i.
    destruct (skipn_nth_cons str0 max Hlen) as (c & Hc & Hs).
    rewrite Hs. cbn [ellipsize_loop]. rewrite Nat.ltb_irrefl.
    rewrite (Step max last c (le_n _) Hc Hl ltac:(lia)).
    rewrite (proj2 (Nat.eqb_neq j 0)) by lia. reflexivity.
  - destruct (skipn_nth_cons str0 i ltac:(lia)) as (c & Hc & Hs).
    rewrite Hs. cbn [ellipsize_loop].
    rewrite (proj2 (Nat.ltb_lt i max)) by lia.
    apply IH; [ lia | lia | ].
    intro Hlt. apply (Step i last c Hi Hc Hl). lia.
Qed.

(** What [ellipsize] does with the limit 60. *)
Lemma ellipsize_60_short s :
  List.length s <= 60 -> ellipsize s 60 = s.
Proof.
  intro H. unfold ellipsize.
  destruct s as [| c s]; [ reflexivity | ].
  cbn [List.length Nat.eqb].
  destruct (S (List.length s) <? 60); [ reflexivity | ].
  apply ellipsize_loop_short. simpl in *. lia.
Qed.

Lemma ellipsize_60_no_break s :
  60 < List.length s -> no_break s 1 60 = true ->
  ellipsize s 60 = firstn 59 s ++ ellipse.
Proof.
  intros H Hno. unfold ellipsize.
  destruct s as [| c s]; [ simpl in H; lia | ].
  cbn [List.length Nat.eqb].
  rewrite (proj2 (Nat.ltb_ge _ _)) by (simpl in H; lia).
  apply (ellipsize_loop_no_break (c :: s) 60 H) with (n := 60) (i := 0);
    [ | reflexivity | lia ].
  intros k Hk. apply (no_break_at _ 1 60 k Hno). lia.
Qed.

Lemma ellipsize_60_break s j :
  60 < List.length s -> 1 <= j <= 60 ->
  break_at s j = true -> no_break s (S j) (60 - j) = true ->
  ellipsize s 60 = firstn j s ++ ellipse.
Proof.
  intros H Hj Hb Hno. unfold ellipsize.
  destruct s as [| c s]; [ simpl in H; lia | ].
  cbn [List.length Nat.eqb].
  rewrite (proj2 (Nat.ltb_ge _ _)) by (simpl in H; lia).
  apply (ellipsize_loop_break (c :: s) 60 j H Hj Hb) with (n := 60) (i := 0);
    [ | reflexivity | lia | lia ].
  intros k Hk. apply (no_break_at _ (S j) (60 - j) k Hno). lia.
Qed.

(** C3.  For a comment with a matching term and no exemption, let the
    remainder be the text without whitespace at its ends that is left
    between whitespace once the matched span is taken out of the comment.
    A remainder of 60 characters or fewer is the message as it is.  A
    longer remainder is cut and the marker is put after it: it is cut at
    its last space or hyphen among the indexes 1 to 60 (counted from 0;
    that character and what follows it are dropped), and after its first
    59 characters when there is no space and no hyphen among them.  So
    what stands before the marker has at most 60 characters, and has 60
    only when the character at the index 60 is a space or a hyphen. *)
Theorem C3_message_is_cut_at_a_break_or_after_59 :
  forall (r : rule) (comment : jsstring) (re : regexp) (i e : nat)
         (a rem b : jsstring),
    hit r comment = Some re ->
    exec (re_ignoreCase re) comment (re_pattern re) = Some (i, e) ->
    firstn i comment ++ skipn e comment = a ++ rem ++ b ->
    forallb is_space a = true ->
    forallb is_space b = true ->
    trimmed rem = true ->
    (List.length rem <= 60 ->
     getUndocumentedTodoMessage r comment = Some rem) /\
    (60 < List.length rem -> no_break rem 1 60 = true ->
     getUndocumentedTodoMessage r comment = Some (firstn 59 rem ++ ellipse)) /\
    (60 < List.length rem ->
     forall j, 1 <= j <= 60 ->
       break_at rem j = true -> no_break rem (S j) (60 - j) = true ->
       getUndocumentedTodoMessage r comment = Some (firstn j rem ++ ellipse)).
Proof.
  intros r comment re i e a rem b H He Hd Ha Hb Ht.
  rewrite (message_of_hit _ _ _ H).
  rewrite (remainder_of_span _ _ _ _ _ _ _ He Hd Ha Hb Ht).
  split; [ | split ].
  - intro L. now rewrite ellipsize_60_short.
  - intros L Hno. now rewrite ellipsize_60_no_break.
  - intros L j Hj Hbr Hno. now rewrite (ellipsize_60_break _ j).
Qed.

Lemma C3_witness :
  getUndocumentedTodoMessage todo_rule (str " TODO: refactor this  ")
  = Some (str "refactor this") /\
  getUndocumentedTodoMessage todo_rule long_comment
  = Some (str "01234567890123456789012345678901234567890123456789012345678"
            ++ ellipse) /\
  getUndocumentedTodoMessage todo_rule sentence_comment
  = Some (str "rewrite the parser so that it copes with nested block"
            ++ ellipse).
Proof.
  split; [ | split ].
  - apply (C3_message_is_cut_at_a_break_or_after_59
             todo_rule (str " TODO: refactor this  ")
             (first_regexp Start (str "todo")) 0 6
             (str " ") (str "refactor this") (str "  "));
      [ reflexivity | reflexivity | reflexivity | reflexivity | reflexivity
      | reflexivity | vm_compute; lia ].
  - apply (C3_message_is_cut_at_a_break_or_after_59
             todo_rule long_comment
             (first_regexp Start (str "todo")) 0 6
             (str " ") digits70 []);
      [ reflexivity | reflexivity | reflexivity | reflexivity | reflexivity
      | reflexivity | vm_compute; lia | reflexivity ].
  - destruct (C3_message_is_cut_at_a_break_or_after_59
                todo_rule sentence_comment
                (first_regexp Start (str "todo")) 0 6
                (str " ") long_sentence (str "  ") eq_refl eq_refl eq_refl
                eq_refl eq_refl eq_refl) as (_ & _ & Cut).
    apply (Cut ltac:(vm_compute; lia) 53 ltac:(lia) eq_refl eq_refl).
Defined.

(** C3 as the spec states it fails: the remainder of [long_comment] has 70
    characters, and the message is its first 59 characters and the marker.
    What stands before the marker in the message has 59 characters, not
    60. *)
Lemma C3_counterexample_59_characters :
  hit todo_rule long_comment = Some (first_regexp Start (str "todo")) /\
  remainder (first_regexp Start (str "todo")) long_comment = digits70 /\
  List.length digits70 = 70 /\
  getUndocumentedTodoMessage todo_rule long_comment
  = Some (firstn 59 digits70 ++ ellipse) /\
  ~ (exists kept,
        getUndocumentedTodoMessage todo_rule long_comment
        = Some (kept ++ ellipse) /\
        List.length kept = 60).
Proof.
  split; [ reflexivity | ]. split; [ reflexivity | ].
  split; [ reflexivity | ]. split; [ reflexivity | ].
  intros (kept & Hm & Hl).
  assert (E : getUndocumentedTodoMessage todo_rule long_comment
              = Some (firstn 59 digits70 ++ ellipse)) by reflexivity.
  rewrite E in Hm. injection Hm as Hm.
  apply (f_equal (@List.length ascii)) in Hm.
  rewrite !length_app, Hl in Hm. vm_compute in Hm. lia.
Qed.

(** C4.  With the term ['todo'], the location [start] and no tracker
    reference, the comment [' TODO: refactor this'] is reported with the
    message ['Undocumented TODO: refactor this']: the match is the first six
    characters, the colon included. *)
Theorem C4_colon_is_part_of_the_match :
  run (only_terms ["todo"%string] Start None) bare_manifest
      [line " TODO: refactor this"]
  = Ok [(line " TODO: refactor this", str "Undocumented TODO: refactor this")] /\
  exec true (str " TODO: refactor this")
       (re_pattern (first_regexp Start (str "todo"))) = Some (0, 6) /\
  remainder (first_regexp Start (str "todo")) (str " TODO: refactor this")
  = str "refactor this".
Proof. split; [ reflexivity | split; reflexivity ]. Qed.

(** C10.  When a term matched, no exemption applies and nothing is left of
    the comment once the match is cut out and the rest is trimmed, nothing
    is reported. *)
Theorem C10_empty_remainder_is_not_reported :
  forall (r : rule) (n : node) (re : regexp),
    hit r (value n) = Some re ->
    remainder re (value n) = [] ->
    checkComment r n = None.
Proof.
  intros r n re H E. unfold checkComment.
  destruct (isDirectiveComment n && test selfConfigRegEx (value n)); auto.
  rewrite (message_of_hit _ _ _ H), E. reflexivity.
Qed.

Lemma C10_witness :
  hit todo_rule (str " TODO:") = Some (first_regexp Start (str "todo")) /\
  remainder (first_regexp Start (str "todo")) (str " TODO:") = [] /\
  checkComment todo_rule (line " TODO:") = None.
Proof.
  split; [ reflexivity | ]. split; [ reflexivity | ].
  apply (C10_empty_remainder_is_not_reported todo_rule (line " TODO:")
           (first_regexp Start (str "todo"))); reflexivity.
Defined.

(** The comments [' TODO'] and [' TODO:'] under the default options. *)
Example bare_todo_is_not_reported :
  run None bare_manifest [line " TODO"; line " TODO:"; line " TODO: x"] =
  Ok [(line " TODO: x", str "Undocumented TODO: x")].
Proof. reflexivity. Qed.

(** ** The tracker reference *)

Lemma compile_escaped t : compile (escapeRegExp t) = Ok (mkseq (lits t)).
Proof.
  unfold compile. rewrite <- (app_nil_r (escapeRegExp t)), lex_escapeRegExp.
  change (lex []) with (@Ok (list token) []). unfold prepend. cbn [bind].
  rewrite parse_terms. cbn [parse].
  now rewrite close_single, app_nil_r, rev_involutive.
Qed.

Lemma repoUrlRegEx_of_string u :
  truthy (VString u) = true ->
  repoUrlRegEx_of (VString u) = Ok (Some (literal_regexp (trim u))).
Proof.
  intro H. unfold repoUrlRegEx_of, RegExp. now rewrite H, compile_escaped.
Qed.

Lemma starts_with_ci_split ic a t h :
  starts_with_ci ic (a ++ t) h = true ->
  starts_with_ci ic t (skipn (List.length a) h) = true.
Proof.
  revert h; induction a as [| c a IH]; intros h H; simpl in *; auto.
  destruct h as [| b h]; [ discriminate | ].
  apply andb_true_iff in H as [_ H]. now apply IH.
Qed.

Lemma starts_with_ci_prefix ic t b h :
  starts_with_ci ic (t ++ b) h = true -> starts_with_ci ic t h = true.
Proof.
  revert h; induction t as [| c t IH]; intros h H; simpl in *; auto.
  destruct h as [| d h]; [ discriminate | ].
  apply andb_true_iff in H as [Hc H]. rewrite Hc. simpl. now apply IH.
Qed.

(** A comment that holds a text holds the trimmed text. *)
Lemma test_literal_trim u c :
  contains_ci u c = true -> test (literal_regexp (trim u)) c = true.
Proof.
  unfold contains_ci. intro H. apply existsb_exists in H as (i & Hi & Ho).
  apply in_positions in Hi. unfold occurs_at in Ho.
  destruct (trim_decomp u) as (a & b & Hu & _ & _).
  pose proof (starts_with_ci_length _ _ _ Ho) as Hlen.
  rewrite length_skipn in Hlen.
  rewrite Hu in Ho. apply starts_with_ci_split in Ho.
  apply starts_with_ci_prefix in Ho. rewrite skipn_skipn in Ho.
  apply test_true_iff. exists (List.length a + i). split.
  - rewrite Hu, !length_app in Hlen. lia.
  - simpl re_pattern. simpl re_ignoreCase.
    rewrite <- (app_nil_r (lits (trim u))), m_lits, Ho. discriminate.
Qed.

(** C2.  Once the rule is created: if a tracker reference that is not empty
    is configured or discovered, a comment that holds it, letter case aside,
    is never reported, whatever term matches; if none is available,
    [commentHasIssue] is false for every comment. *)
Theorem C2_tracker_reference_exempts :
  forall (options0 : option configuration) (lookup : result jsvalue) (r : rule),
    create options0 lookup = Ok r ->
    (forall u,
        repoUrl_of (or_default options0 no_configuration) lookup = Ok (VString u) ->
        u <> [] ->
        forall n, contains_ci u (value n) = true -> checkComment r n = None) /\
    (forall v,
        repoUrl_of (or_default options0 no_configuration) lookup = Ok v ->
        truthy v = false ->
        forall comment, commentHasIssue r comment = false).
Proof.
  intros options0 lookup r Hc. unfold create in Hc. split.
  - intros u Hu Hne n Hn. rewrite Hu in Hc. simpl in Hc.
    assert (T : truthy (VString u) = true) by (destruct u; [ contradiction | reflexivity ]).
    rewrite (repoUrlRegEx_of_string _ T) in Hc. simpl in Hc.
    destruct (map_result _ _) as [regs | |]; try discriminate.
    simpl in Hc. injection Hc as <-.
    unfold checkComment.
    destruct (isDirectiveComment n && test selfConfigRegEx (value n)); auto.
    unfold getUndocumentedTodoMessage. rewrite first_message_exempt; auto.
    unfold commentHasIssue. simpl. now apply test_literal_trim.
  - intros v Hv Hf comment. rewrite Hv in Hc. simpl in Hc.
    unfold repoUrlRegEx_of in Hc. rewrite Hf in Hc. simpl in Hc.
    destruct (map_result _ _) as [regs | |]; try discriminate.
    simpl in Hc. injection Hc as <-. reflexivity.
Qed.

Lemma C2_witness :
  exists r r',
    create tracker_options bare_manifest = Ok r /\
    contains_ci (str "https://example.com/issues/4")
                (str " TODO: see HTTPS://example.com/issues/4") = true /\
    checkComment r (line " TODO: see HTTPS://example.com/issues/4") = None /\
    create None bare_manifest = Ok r' /\
    commentHasIssue r' (str " TODO: see https://example.com/issues/4") = false.
Proof.
  assert (C : exists r, create tracker_options bare_manifest = Ok r)
    by (eexists; reflexivity).
  assert (C' : exists r', create None bare_manifest = Ok r')
    by (eexists; reflexivity).
  destruct C as [r Hr]. destruct C' as [r' Hr'].
  exists r, r'.
  destruct (C2_tracker_reference_exempts _ _ _ Hr) as [A _].
  destruct (C2_tracker_reference_exempts _ _ _ Hr') as [_ B].
  split; [ exact Hr | ]. split; [ reflexivity | ].
  split.
  - apply (A (str "https://example.com/issues/4") eq_refl); [ discriminate | ].
    reflexivity.
  - split; [ exact Hr' | ].
    apply (B VUndefined eq_refl eq_refl).
Defined.

(** The scenarios of the spec with a tracker reference. *)
Example tracker_scenarios :
  messages (run tracker_options bare_manifest
              [line " TODO: see https://example.com/issues/4";
               line " TODO: see the tracker"])
  = Ok ["Undocumented TODO: see the tracker"%string].
Proof. reflexivity. Qed.

(** ** The manifest *)

Lemma get_prop v key : nullish v = false -> get v key = Ok (prop v key).
Proof. destruct v; simpl; intro H; try discriminate; reflexivity. Qed.

Lemma truthy_not_nullish v : truthy v = true -> nullish v = false.
Proof. destruct v; simpl; intro H; try discriminate; reflexivity. Qed.

Lemma repoUrl_of_unset options0 lookup :
  url_unset options0 = true ->
  repoUrl_of (or_default options0 no_configuration) lookup = getRepoUrl lookup.
Proof.
  unfold url_unset, repoUrl_of.
  destruct (url (or_default options0 no_configuration)) as [u |]; auto.
  intro H. apply negb_true_iff in H. now rewrite H.
Qed.

Lemma getRepoUrl_missing lookup :
  manifest_missing lookup = true -> exists e, getRepoUrl lookup = Throw e.
Proof.
  unfold manifest_missing, getRepoUrl.
  destruct lookup as [found | e |]; cbn [bind]; [ | eauto | discriminate ].
  destruct (get found "packageJson") as [p | e |] eqn:G; cbn [bind].
  - intro H. destruct p; try discriminate; simpl; eauto.
  - eauto.
  - destruct found; discriminate.
Qed.

Lemma getRepoUrl_nothing_usable found packageJson :
  get found "packageJson" = Ok packageJson ->
  nullish packageJson = false ->
  bugs_unusable (prop packageJson "bugs") = true ->
  truthy (prop packageJson "repository") = false ->
  getRepoUrl (Ok found) = Ok VUndefined.
Proof.
  intros Hp Hn Hb Hr. unfold getRepoUrl. simpl. rewrite Hp. simpl.
  rewrite !(get_prop packageJson) by assumption. simpl.
  unfold bugs_unusable in Hb.
  destruct (truthy (prop packageJson "bugs")) eqn:Tb; simpl in *.
  - apply andb_true_iff in Hb as [Hs Hu].
    apply negb_true_iff in Hs, Hu. rewrite Hs.
    rewrite (get_prop _ "url" (truthy_not_nullish _ Tb)). simpl.
    rewrite Hu. simpl. now rewrite Hr.
  - now rewrite Hr.
Qed.

(** C5 fails on the code where [repository] is an object: [getRepoUrl]
    reads [packageJson.resolutions.url] in place of
    [packageJson.repository.url].  Without a field [resolutions] the call
    throws a TypeError; with one that has no [url] it returns [undefined]. *)
Theorem C5_repository_object_is_not_read :
  getRepoUrl (manifest [("repository"%string, repository_object)])
  = Throw TypeError /\
  getRepoUrl (manifest [("repository"%string, repository_object);
                        ("resolutions"%string, VObject [])])
  = Ok VUndefined /\
  run None (manifest [("repository"%string, repository_object)])
      [line " TODO: later"]
  = Throw TypeError.
Proof. split; [ reflexivity | split; reflexivity ]. Qed.

(** The branches of [getRepoUrl] that do what C5 says. *)
Lemma getRepoUrl_bugs_string fields u :
  assoc "bugs" fields = VString u -> u <> [] ->
  getRepoUrl (manifest fields) = Ok (VString u).
Proof.
  intros H Hu. unfold getRepoUrl, manifest. simpl. rewrite H. simpl.
  destruct u; [ contradiction | reflexivity ].
Qed.

Lemma getRepoUrl_bugs_url fields bugs v :
  assoc "bugs" fields = VObject bugs -> assoc "url" bugs = v ->
  truthy v = true ->
  getRepoUrl (manifest fields) = Ok v.
Proof.
  intros H Hv Ht. unfold getRepoUrl, manifest. simpl. rewrite H. simpl.
  now rewrite Hv, Ht.
Qed.

Lemma getRepoUrl_repository_string fields u :
  bugs_unusable (assoc "bugs" fields) = true ->
  assoc "repository" fields = VString u -> u <> [] ->
  getRepoUrl (manifest fields) = Ok (VString u).
Proof.
  intros Hb H Hu. unfold getRepoUrl, manifest. simpl.
  unfold bugs_unusable in Hb.
  destruct (truthy (assoc "bugs" fields)) eqn:Tb; simpl in *.
  - apply andb_true_iff in Hb as [Hs Hv].
    apply negb_true_iff in Hs, Hv. rewrite Hs.
    rewrite (get_prop _ "url" (truthy_not_nullish _ Tb)). simpl.
    rewrite Hv. simpl. rewrite H. simpl.
    destruct u; [ contradiction | reflexivity ].
  - rewrite H. simpl. destruct u; [ contradiction | reflexivity ].
Qed.

(** C6 as the spec states it fails: a lookup that finds no manifest makes
    the creation of the rule throw. *)
Lemma C6_counterexample_no_manifest :
  url_unset None = true /\
  manifest_missing (Ok VUndefined) = true /\
  create None (Ok VUndefined) = Throw TypeError /\
  run None (Ok VUndefined) [line " TODO: later"] = Throw TypeError /\
  manifest_missing (Throw LookupError) = true /\
  run None (Throw LookupError) [line " TODO: later"] = Throw LookupError.
Proof. repeat (split; [ reflexivity | ]). reflexivity. Qed.

(** C6, as the code has it.  With the option [url] unset: when the lookup
    gives no manifest, creating the rule throws; when it gives a manifest
    whose [bugs] gives no reference and whose [repository] is falsy, the
    rule is created as with no tracker reference at all, and no comment is
    exempt. *)
Theorem C6_lookup_without_reference :
  forall (options0 : option configuration) (lookup : result jsvalue),
    url_unset options0 = true ->
    (manifest_missing lookup = true ->
     exists e, create options0 lookup = Throw e) /\
    (forall found packageJson,
        lookup = Ok found ->
        get found "packageJson" = Ok packageJson ->
        nullish packageJson = false ->
        bugs_unusable (prop packageJson "bugs") = true ->
        truthy (prop packageJson "repository") = false ->
        create options0 lookup =
          (regexps <- map_result
                        (convertToRegExp
                           (location_of (or_default options0 no_configuration)))
                        (warningTerms (or_default options0 no_configuration)) ;;
           Ok {| warningRegExps := regexps; repoUrlRegEx := None |}) /\
        forall r, create options0 lookup = Ok r ->
                  forall comment, commentHasIssue r comment = false).
Proof.
  intros options0 lookup Hu. split.
  - intro Hm. unfold create. rewrite (repoUrl_of_unset _ _ Hu).
    destruct (getRepoUrl_missing _ Hm) as (e & ->). simpl. eauto.
  - intros found packageJson -> Hp Hn Hb Hr.
    assert (E : create options0 (Ok found) =
      (regexps <- map_result
                    (convertToRegExp
                       (location_of (or_default options0 no_configuration)))
                    (warningTerms (or_default options0 no_configuration)) ;;
       Ok {| warningRegExps := regexps; repoUrlRegEx := None |})).
    { unfold create. rewrite (repoUrl_of_unset _ _ Hu).
      now rewrite (getRepoUrl_nothing_usable _ _ Hp Hn Hb Hr). }
    split; [ exact E | ].
    intros r Hc comment. rewrite E in Hc.
    destruct (map_result _ _) as [regs | |]; try discriminate.
    simpl in Hc. injection Hc as <-. reflexivity.
Qed.

Lemma C6_witness :
  (url_unset None = true /\ manifest_missing (Ok VUndefined) = true /\
   exists e, create None (Ok VUndefined) = Throw e) /\
  (forall r, create None bare_manifest = Ok r ->
             commentHasIssue r (str " TODO: later") = false).
Proof.
  destruct (C6_lookup_without_reference None (Ok VUndefined) eq_refl) as [A _].
  destruct (C6_lookup_without_reference None bare_manifest eq_refl) as [_ B].
  split.
  - split; [ reflexivity | ]. split; [ reflexivity | ]. apply A. reflexivity.
  - intros r Hr.
    destruct (B (VObject [("packageJson"%string, VObject [])]) (VObject [])
                eq_refl eq_refl eq_refl eq_refl eq_refl) as [_ H].
    apply (H r Hr).
Defined.

(** * Further properties of the rule *)

(** ** Letter case *)

Lemma fold_fold c : fold (fold c) = fold c.
Proof. by_cases_on c. Qed.

Lemma is_space_fold c : is_space (fold c) = is_space c.
Proof. by_cases_on c. Qed.

Lemma is_digit_fold c : is_digit (fold c) = is_digit c.
Proof. by_cases_on c. Qed.

Lemma is_line_terminator_fold c :
  is_line_terminator (fold c) = is_line_terminator c.
Proof. by_cases_on c. Qed.

Lemma colon_fold c : Ascii.eqb (fold c) (fold ":"%char) = Ascii.eqb c ":"%char.
Proof. by_cases_on c. Qed.

Lemma in_cls_fold k c : in_cls k (fold c) = in_cls k c.
Proof.
  destruct k; simpl; auto using is_digit_fold, is_space_fold, is_word_fold.
Qed.

Lemma head_word_fold_eq a b :
  map fold a = map fold b -> head_word a = head_word b.
Proof.
  destruct a, b; simpl; intro H; try discriminate; auto.
  injection H as H _. now apply (is_word_canon true).
Qed.

Lemma nth_error_fold_eq s s' x :
  map fold s = map fold s' ->
  option_map fold (nth_error s x) = option_map fold (nth_error s' x).
Proof. intro H. now rewrite <- !nth_error_map, H. Qed.

Lemma m_char_fold_eq s s' p k x :
  map fold s = map fold s' ->
  (forall c, p (fold c) = p c) ->
  m_char s p k x = m_char s' p k x.
Proof.
  intros H Hp. unfold m_char. pose proof (nth_error_fold_eq s s' x H) as E.
  destruct (nth_error s x) as [c |], (nth_error s' x) as [c' |];
    simpl in E; try discriminate; auto.
  injection E as E. now rewrite <- (Hp c), E, Hp.
Qed.

Lemma word_at_fold_eq s s' x :
  map fold s = map fold s' -> word_at s x = word_at s' x.
Proof.
  intro H. unfold word_at. pose proof (nth_error_fold_eq s s' x H) as E.
  destruct (nth_error s x) as [c |], (nth_error s' x) as [c' |];
    simpl in E; try discriminate; auto.
  injection E as E. now apply (is_word_canon true).
Qed.

Lemma word_boundary_fold_eq s s' x :
  map fold s = map fold s' -> word_boundary s x = word_boundary s' x.
Proof.
  intro H. unfold word_boundary. rewrite (word_at_fold_eq s s' x H).
  destruct x; auto. now rewrite (word_at_fold_eq s s' x H).
Qed.

Lemma repeat_m_same ma ma' greedy k n :
  (forall k x, ma k x = ma' k x) ->
  (forall k k' x, (forall y, k y = k' y) -> ma' k x = ma' k' x) ->
  forall y, repeat_m ma greedy k n y = repeat_m ma' greedy k n y.
Proof.
  intros Hsame Hext. induction n as [| n IH]; intro y; [ reflexivity | ].
  rewrite !repeat_m_S. cbv zeta. rewrite Hsame.
  assert (E : ma' (fun z => if Nat.eqb z y then None else repeat_m ma greedy k n z) y
            = ma' (fun z => if Nat.eqb z y then None else repeat_m ma' greedy k n z) y).
  { apply Hext. intro z. destruct (Nat.eqb z y); auto. }
  now rewrite E.
Qed.

(** With the flag [i] the matcher does not see the letter case of the
    input. *)
Lemma m_fold_eq s s' :
  map fold s = map fold s' ->
  forall r k x, m true s r k x = m true s' r k x.
Proof.
  intro H.
  assert (L : List.length s = List.length s').
  { rewrite <- (length_map fold s), H. apply length_map. }
  induction r as [ | c | | neg cl | | | neg | a IHa b IHb | a IHa b IHb
                 | q greedy a IHa | a IHa | neg a IHa ];
    intros k x; cbn [m].
  - reflexivity.
  - apply m_char_fold_eq; auto. intro d. unfold canon. now rewrite fold_fold.
  - apply m_char_fold_eq; auto. intro d. now rewrite is_line_terminator_fold.
  - apply m_char_fold_eq; auto. intro d. now rewrite in_cls_fold.
  - reflexivity.
  - now rewrite L.
  - now rewrite (word_boundary_fold_eq s s' x H).
  - rewrite IHa. apply m_ext_all. intro y. apply IHb.
  - now rewrite IHa, IHb.
  - assert (R : forall n y, repeat_m (m true s a) greedy k n y
                          = repeat_m (m true s' a) greedy k n y).
    { intros n y. apply repeat_m_same; auto.
      intros k1 k2 z Hk. now apply m_ext_all. }
    destruct q.
    + rewrite L. apply R.
    + rewrite IHa, L. apply m_ext_all. intro y. apply R.
    + now rewrite IHa.
  - apply IHa.
  - now rewrite IHa.
Qed.

Lemma exec_from_same ic s s' r r' :
  (forall i, m ic s r Some i = m ic s' r' Some i) ->
  forall fuel x, exec_from ic s r fuel x = exec_from ic s' r' fuel x.
Proof.
  intros H fuel. induction fuel as [| f IH]; intro x; simpl; rewrite H; auto.
  destruct (m ic s' r' Some x); auto.
Qed.

Lemma test_fold_eq re s s' :
  re_ignoreCase re = true -> map fold s = map fold s' ->
  test re s = test re s'.
Proof.
  intros Hi H. unfold test, exec. rewrite Hi.
  assert (L : List.length s = List.length s').
  { rewrite <- (length_map fold s), H. apply length_map. }
  rewrite L, (exec_from_same true s s' (re_pattern re) (re_pattern re)); auto.
  intro i. now apply m_fold_eq.
Qed.

(** ** What [create] leaves behind *)

Lemma RegExp_ignoreCase source ic re :
  RegExp source ic = Ok re -> re_ignoreCase re = ic.
Proof.
  unfold RegExp. destruct (compile source); simpl; try discriminate.
  intro H. now injection H as <-.
Qed.

Lemma map_result_Forall {A B} (f : A -> result B) (P : B -> Prop) l bs :
  (forall a b, f a = Ok b -> P b) ->
  map_result f l = Ok bs -> Forall P bs.
Proof.
  intro Hf. revert bs; induction l as [| a l IH]; intros bs H; simpl in H.
  - injection H as <-. constructor.
  - destruct (f a) as [b | |] eqn:Fa; simpl in H; try discriminate.
    destruct (map_result f l) as [bs' | |]; simpl in H; try discriminate.
    injection H as <-. constructor; eauto.
Qed.

Lemma create_inv options0 lookup r :
  create options0 lookup = Ok r ->
  exists repoUrl,
    repoUrl_of (or_default options0 no_configuration) lookup = Ok repoUrl /\
    repoUrlRegEx_of repoUrl = Ok (repoUrlRegEx r) /\
    map_result (convertToRegExp (location_of (or_default options0 no_configuration)))
               (warningTerms (or_default options0 no_configuration))
    = Ok (warningRegExps r).
Proof.
  unfold create. intro H.
  destruct (repoUrl_of _ lookup) as [v | |] eqn:E1; simpl in H; try discriminate.
  destruct (repoUrlRegEx_of v) as [t | |] eqn:E2; simpl in H; try discriminate.
  destruct (map_result _ _) as [regs | |] eqn:E3; simpl in H; try discriminate.
  injection H as <-. exists v. repeat split; assumption.
Qed.

Lemma created_ignoreCase options0 lookup r :
  create options0 lookup = Ok r ->
  Forall (fun re => re_ignoreCase re = true) (warningRegExps r) /\
  (forall re, repoUrlRegEx r = Some re -> re_ignoreCase re = true).
Proof.
  intro H. apply create_inv in H as (v & _ & Ht & Hr). split.
  - eapply map_result_Forall; [ | exact Hr ].
    intros a b Hb. apply (RegExp_ignoreCase _ _ _ Hb).
  - intros re Hre. unfold repoUrlRegEx_of in Ht.
    destruct (truthy v); [ | congruence ].
    destruct v; try discriminate.
    destruct (RegExp (escapeRegExp (trim s)) true) as [re' | |] eqn:E;
      simpl in Ht; try discriminate.
    apply RegExp_ignoreCase in E. congruence.
Qed.

Lemma first_message_some_eq r regexps c c' :
  (forall re, In re regexps -> test re c = test re c') ->
  commentHasIssue r c = commentHasIssue r c' ->
  is_some (first_message r regexps c) = is_some (first_message r regexps c').
Proof.
  intros Ht Hc. induction regexps as [| re rest IH]; simpl; auto.
  rewrite (Ht re (or_introl eq_refl)), Hc.
  destruct (test re c' && negb (commentHasIssue r c')); auto.
  apply IH. intros x Hx. apply Ht. now right.
Qed.

(** X5.  For a rule that [create] returns, two comments that differ only in
    letter case are treated alike: every compiled term matches both or
    none, both are exempt or none, and both have a message or none. *)
Theorem letter_case_of_comment_is_ignored :
  forall options0 lookup r c c',
    create options0 lookup = Ok r ->
    map fold c = map fold c' ->
    (forall re, In re (warningRegExps r) -> test re c = test re c') /\
    commentHasIssue r c = commentHasIssue r c' /\
    is_some (getUndocumentedTodoMessage r c) =
    is_some (getUndocumentedTodoMessage r c').
Proof.
  intros options0 lookup r c c' Hr Hf.
  destruct (created_ignoreCase _ _ _ Hr) as [Hw Ht].
  assert (A : forall re, In re (warningRegExps r) -> test re c = test re c').
  { intros re Hin. apply test_fold_eq; auto.
    apply (proj1 (Forall_forall _ _) Hw re Hin). }
  assert (B : commentHasIssue r c = commentHasIssue r c').
  { unfold commentHasIssue. destruct (repoUrlRegEx r) as [re |] eqn:E; auto.
    apply test_fold_eq; auto. }
  split; [ exact A | split; [ exact B | ] ].
  now apply first_message_some_eq.
Qed.

Lemma letter_case_witness :
  exists r,
    create None bare_manifest = Ok r /\
    map fold (str " TODO: Later") = map fold (str " todo: later") /\
    is_some (getUndocumentedTodoMessage r (str " TODO: Later")) =
    is_some (getUndocumentedTodoMessage r (str " todo: later")).
Proof.
  assert (C : exists r, create None bare_manifest = Ok r)
    by (eexists; reflexivity).
  destruct C as [r Hr]. exists r.
  split; [ exact Hr | ]. split; [ reflexivity | ].
  apply (letter_case_of_comment_is_ignored None bare_manifest r
           (str " TODO: Later") (str " todo: later") Hr eq_refl).
Defined.

(** ** The two locations, in full *)

Lemma spaces_prefix pre rest :
  spaces (pre ++ rest) 0 (List.length pre) -> forallb is_space pre = true.
Proof.
  intro Hs. apply forallb_forall. intros x Hx.
  apply In_nth_error in Hx as (i & Hi).
  assert (Li : i < List.length pre) by (apply nth_error_Some; congruence).
  destruct (Hs i) as (d & Hd & Hsp); [ lia | ].
  rewrite nth_error_app1 in Hd by assumption. congruence.
Qed.

Lemma spaces_within c z : spaces c 0 z -> z <= List.length c \/ z = 0.
Proof.
  intro Hs. destruct z as [| p]; [ now right | left ].
  apply (spaces_length c 0); auto. lia.
Qed.

Lemma map_fold_length a b : map fold a = map fold b -> List.length a = List.length b.
Proof. intro H. rewrite <- (length_map fold a), H. apply length_map. Qed.

Lemma last_word_of_occurrence mid term :
  map fold mid = map fold term -> test word_end term = true ->
  head_word (rev mid) = true.
Proof.
  intros H Hw. rewrite (head_word_fold_eq (rev mid) (rev term)).
  - now apply word_end_last.
  - now rewrite !map_rev, H.
Qed.

(** X1.  The location [start], in full: the matcher of a term always
    compiles, and it matches a comment exactly when the comment is
    whitespace, then the term in some letter case, then - if the term ends
    in a word character - the end or a character that is not a word
    character. *)
Theorem start_location_in_full :
  forall term c,
    exists b,
      matches Start term c = Ok b /\
      (b = true <->
       exists ws mid rest,
         c = ws ++ mid ++ rest /\
         forallb is_space ws = true /\
         map fold mid = map fold term /\
         (test word_end term = true -> next_not_word rest = true)).
Proof.
  intros term c. exists (test (first_regexp Start term) c). split.
  - unfold matches. now rewrite convertToRegExp_start.
  - rewrite start_match_iff. split.
    + intros (z & Hs & Ho & Hb).
      assert (Hz : z <= List.length c).
      { destruct (spaces_within c z Hs) as [Hz | ->]; lia. }
      destruct (starts_with_ci_inv true term _ Ho) as (mid & rest & Hsk & Hm).
      destruct (skipn_split c z Hz) as (pre & Hc & Hl).
      rewrite Hsk in Hc. subst c z.
      exists pre, mid, rest. repeat split.
      * now apply spaces_prefix in Hs.
      * exact Hm.
      * intro Hw. specialize (Hb Hw).
        rewrite <- (map_fold_length _ _ Hm), <- length_app, app_assoc,
          word_boundary_app, rev_app_distr in Hb.
        pose proof (last_word_of_occurrence _ _ Hm Hw) as Hl'.
        destruct (rev mid) as [| d rm]; [ discriminate | ].
        simpl in Hb, Hl'. rewrite Hl' in Hb. unfold next_not_word.
        now destruct (head_word rest).
    + intros (ws & mid & rest & -> & Hws & Hm & Hr).
      exists (List.length ws). split; [ now apply spaces_app | split ].
      * unfold occurs_at. rewrite skipn_length_app.
        now apply starts_with_ci_app.
      * intro Hw.
        rewrite <- (map_fold_length _ _ Hm), <- length_app, app_assoc,
          word_boundary_app, rev_app_distr.
        pose proof (last_word_of_occurrence _ _ Hm Hw) as Hl'.
        destruct (rev mid) as [| d rm]; [ discriminate | ].
        simpl in *. rewrite Hl'. specialize (Hr Hw).
        unfold next_not_word in Hr. now destruct (head_word rest).
Qed.

Lemma start_location_witness :
  matches Start (str "todo") (str "  ToDo: x") = Ok true.
Proof.
  destruct (start_location_in_full (str "todo") (str "  ToDo: x"))
    as (b & Hb & Hiff).
  rewrite Hb. f_equal. apply Hiff.
  exists (str "  "), (str "ToDo"), (str ": x").
  repeat split; reflexivity.
Defined.

(** *** The location [anywhere] *)

Lemma boundary_terms_skip ic s b l k x :
  (b = true -> word_boundary s x = true) ->
  m ic s (mkseq (boundary_terms b ++ l)) k x = m ic s (mkseq l) k x.
Proof.
  intro H. destruct b; [ | reflexivity ]. simpl. now rewrite H.
Qed.

Lemma first_anywhere_accepts s term i :
  (test word_start term = true -> word_boundary s i = true) ->
  starts_with_ci true term (skipn i s) = true ->
  (test word_end term = true ->
   word_boundary s (i + List.length term) = true) ->
  m true s (mkseq (first_terms Anywhere term)) Some i <> None.
Proof.
  intros B1 Ho B2. unfold first_terms. cbn [prefix_terms].
  rewrite boundary_terms_skip, m_lits, Ho by assumption.
  now apply suffix_terms_accept.
Qed.

Lemma escapeRegExp_no_syntax t : no_syntax t = true -> escapeRegExp t = t.
Proof.
  induction t as [| c t IH]; simpl; auto.
  intro H. apply andb_true_iff in H as [Hc Ht].
  apply negb_true_iff in Hc. unfold escape_char. rewrite Hc. simpl.
  now rewrite IH.
Qed.

Lemma compile_second_no_syntax term :
  no_syntax term = true ->
  compile (second_source term) = Ok (mkseq (second_terms term)).
Proof.
  intro H. unfold compile, second_source.
  rewrite lex_boundary. rewrite <- (escapeRegExp_no_syntax _ H) at 1.
  rewrite lex_escapeRegExp, <- (app_nil_r wordBoundary), lex_boundary.
  simpl lex. simpl prepend. cbn [bind boundary_tokens app].
  change (TTerm (RWordB false) :: term_tokens (lits term) ++ [TTerm (RWordB false)])
    with (term_tokens [RWordB false] ++ term_tokens (lits term) ++ [TTerm (RWordB false)]).
  rewrite !parse_terms. simpl. rewrite close_single.
  cbn [rev]. rewrite rev_app_distr, rev_involutive. reflexivity.
Qed.

Lemma second_adds_nothing s term i :
  m true s (RAlt (mkseq (first_terms Anywhere term)) (mkseq (second_terms term)))
    Some i
  = m true s (mkseq (first_terms Anywhere term)) Some i.
Proof.
  cbn [m].
  destruct (m true s (mkseq (first_terms Anywhere term)) Some i) eqn:F;
    [ reflexivity | ].
  cbn [orelse]. destruct (m true s (mkseq (second_terms term)) Some i) eqn:S2;
    [ | reflexivity ].
  exfalso. apply second_inv in S2 as (Ho & B1 & B2).
  apply (first_anywhere_accepts s term i); auto.
Qed.

(** X3.  For a term without syntax characters the second alternative of the
    location [anywhere] changes nothing: the pattern compiles, and on every
    comment it finds the same match, and so cuts out the same text, as the
    first alternative alone. *)
Theorem second_alternative_is_redundant :
  forall term,
    no_syntax term = true ->
    exists re,
      convertToRegExp Anywhere term = Ok re /\
      forall c,
        exec true c (re_pattern re) =
        exec true c (re_pattern (first_regexp Anywhere term)) /\
        test re c = test (first_regexp Anywhere term) c /\
        replace_empty re c = replace_empty (first_regexp Anywhere term) c.
Proof.
  intros term H. eexists. split.
  - unfold convertToRegExp, RegExp.
    rewrite compile_anywhere, (compile_second_no_syntax _ H). reflexivity.
  - intro c.
    assert (E : exec true c (RAlt (mkseq (first_terms Anywhere term))
                                  (mkseq (second_terms term)))
              = exec true c (mkseq (first_terms Anywhere term))).
    { unfold exec. apply exec_from_same. intro i. apply second_adds_nothing. }
    unfold test, replace_empty, first_regexp.
    cbn [re_pattern re_ignoreCase]. rewrite E. auto.
Qed.

Lemma second_alternative_witness :
  exists re,
    convertToRegExp Anywhere (str "to-do") = Ok re /\
    replace_empty re (str "a to-do: b") =
    replace_empty (first_regexp Anywhere (str "to-do")) (str "a to-do: b").
Proof.
  destruct (second_alternative_is_redundant (str "to-do") eq_refl)
    as (re & Hre & H).
  exists re. split; [ exact Hre | ]. apply (H (str "a to-do: b")).
Defined.

Lemma plain_no_syntax t : forallb is_word t = true -> no_syntax t = true.
Proof.
  intro H. apply forallb_forall. intros c Hc.
  apply negb_true_iff, is_word_not_syntax.
  apply (proj1 (forallb_forall _ _) H c Hc).
Qed.

(** X2.  The location [anywhere] on a term made of word characters: the
    matcher matches a comment exactly when the term stands in it, in some
    letter case, as a whole word - no word character right before it and
    none right after it. *)
Theorem anywhere_matches_whole_words :
  forall term c,
    term <> [] -> forallb is_word term = true ->
    exists b,
      matches Anywhere term c = Ok b /\
      (b = true <->
       exists pre mid post,
         c = pre ++ mid ++ post /\
         map fold mid = map fold term /\
         head_word (rev pre) = false /\ head_word post = false).
Proof.
  intros term c Ht Hw.
  destruct (plain_term_ends term Ht Hw) as [Ws We].
  exists (test (first_regexp Anywhere term) c). split.
  - unfold matches. rewrite (convertToRegExp_anywhere_plain _ Hw).
    cbn [bind]. f_equal. unfold test, exec, first_regexp.
    cbn [re_pattern re_ignoreCase].
    rewrite (exec_from_same true c c _ (mkseq (first_terms Anywhere term)));
      auto.
    intro i. apply second_adds_nothing.
  - split.
    + intro T. apply test_true_iff in T as (i & Hi & Hm).
      simpl re_pattern in Hm. simpl re_ignoreCase in Hm.
      destruct (m true c (mkseq (first_terms Anywhere term)) Some i) eqn:M;
        [ | contradiction ].
      apply first_anywhere_inv in M as (Ho & B1 & B2).
      specialize (B1 Ws). specialize (B2 We).
      rewrite (boundary_before_occurrence term c i Ht Hw Ho) in B1.
      rewrite (boundary_after_occurrence term c i Ht Hw Ho) in B2.
      apply negb_true_iff in B1, B2.
      destruct (starts_with_ci_inv true term _ Ho) as (mid & post & Hsk & Hmid).
      destruct (skipn_split c i Hi) as (pre & Hc & Hl).
      rewrite Hsk in Hc. subst c i.
      exists pre, mid, post. repeat split; auto.
      * now rewrite word_before_app in B1.
      * unfold word_after in B2.
        now rewrite <- (map_fold_length _ _ Hmid), <- length_app, app_assoc,
          word_at_app in B2.
    + intros (pre & mid & post & -> & Hm & Hpre & Hpost).
      apply test_true_iff. exists (List.length pre). split.
      * rewrite length_app. lia.
      * assert (Hh : head_word mid = true).
        { rewrite (head_word_fold_eq mid term Hm).
          destruct term as [| t0 t']; [ contradiction | ].
          simpl in *. now apply andb_true_iff in Hw as [Hw _]. }
        apply first_anywhere_accepts.
        -- intros _. rewrite word_boundary_app, Hpre, head_word_app.
           destruct mid; [ discriminate | exact Hh ].
        -- rewrite skipn_length_app. now apply starts_with_ci_app.
        -- intros _. rewrite <- (map_fold_length _ _ Hm), <- length_app,
             app_assoc, word_boundary_app, rev_app_distr, Hpost.
           pose proof (last_word_of_occurrence _ _ Hm We) as Hl.
           destruct (rev mid); [ discriminate | ]. simpl in *. now rewrite Hl.
Qed.

Lemma anywhere_whole_words_witness :
  str "todo" <> [] /\ forallb is_word (str "todo") = true /\
  matches Anywhere (str "todo") (str "a Todo, b") = Ok true.
Proof.
  split; [ discriminate | ]. split; [ reflexivity | ].
  destruct (anywhere_matches_whole_words (str "todo") (str "a Todo, b"))
    as (b & Hb & Hiff); [ discriminate | reflexivity | ].
  rewrite Hb. f_equal. apply Hiff.
  exists (str "a "), (str "Todo"), (str ", b"). repeat split; reflexivity.
Defined.

(** ** What the location [start] cuts out *)

Lemma repeat_space_max ic s k n x z e :
  x <= z -> spaces s x z ->
  match nth_error s z with Some c => is_space c = false | None => True end ->
  z - x < n -> k z = Some e ->
  repeat_m (m ic s (RClass false ClsSpace)) true k n x = Some e.
Proof.
  revert x; induction n as [| n IH]; intros x Hxz Hs Hend Hn Hk; [ lia | ].
  rewrite repeat_space_S.
  destruct (Nat.eq_dec x z) as [-> | Hne].
  - destruct (nth_error s z) as [c |]; [ rewrite Hend | ]; exact Hk.
  - destruct (Hs x) as (c & -> & Hc); [ lia | ]. rewrite Hc.
    rewrite (IH (S x)); auto; try lia.
    intros i Hi. apply Hs. lia.
Qed.

Lemma opt_colon_end s y :
  m true s (mkseq [opt_colon]) Some y =
  Some (match nth_error s y with
        | Some c => if Ascii.eqb c ":"%char then S y else y
        | None => y
        end).
Proof.
  cbn [mkseq fold_right opt_colon m]. unfold m_char, canon.
  destruct (nth_error s y) as [c |]; [ | reflexivity ].
  rewrite colon_fold. destruct (Ascii.eqb c ":"%char); [ | reflexivity ].
  now rewrite (proj2 (Nat.eqb_neq (S y) y)) by lia.
Qed.

Lemma head_space_fold_eq a b :
  map fold a = map fold b -> head_not_space a = head_not_space b.
Proof.
  destruct a as [| c a], b as [| d b]; simpl; intro H; try discriminate; auto.
  injection H as H _. now rewrite <- (is_space_fold c), H, is_space_fold.
Qed.

Lemma skipn_colon pre rest :
  skipn (match nth_error (pre ++ rest) (List.length pre) with
         | Some c => if Ascii.eqb c ":"%char then S (List.length pre)
                     else List.length pre
         | None => List.length pre
         end) (pre ++ rest) = drop_colon rest.
Proof.
  rewrite nth_error_app2, Nat.sub_diag by lia.
  destruct rest as [| c r]; simpl.
  - apply (skipn_length_app pre []).
  - destruct (Ascii.eqb c ":"%char).
    + replace (pre ++ c :: r) with ((pre ++ [c]) ++ r)
        by (rewrite <- app_assoc; reflexivity).
      replace (S (List.length pre)) with (List.length (pre ++ [c]))
        by (rewrite length_app; simpl; lia).
      apply skipn_length_app.
    + apply skipn_length_app.
Qed.

(** X4.  In the location [start], for a term that is not empty and does not
    begin with whitespace: on a comment made of whitespace, the term in some
    letter case and a rest, where the rest is empty or begins with a
    character that is no word character whenever the term ends in a word
    character, the match is the whitespace, the term and the colon that may
    follow; what is left for the message is the rest without that colon,
    trimmed. *)
Theorem start_match_cuts_term_and_colon :
  forall term ws mid rest,
    head_not_space term = true ->
    forallb is_space ws = true ->
    map fold mid = map fold term ->
    (test word_end term = true -> next_not_word rest = true) ->
    exists re,
      convertToRegExp Start term = Ok re /\
      replace_empty re (ws ++ mid ++ rest) = drop_colon rest /\
      remainder re (ws ++ mid ++ rest) = trim (drop_colon rest).
Proof.
  intros term ws mid rest Hh Hws Hm Hr.
  exists (first_regexp Start term). split; [ apply convertToRegExp_start | ].
  assert (R : replace_empty (first_regexp Start term) (ws ++ mid ++ rest)
              = drop_colon rest).
  { unfold replace_empty, first_regexp. cbn [re_pattern re_ignoreCase].
    set (c := ws ++ mid ++ rest).
    set (y := List.length ws + List.length term).
    assert (M : m true c (mkseq (first_terms Start term)) Some 0 =
                Some (match nth_error c y with
                      | Some d => if Ascii.eqb d ":"%char then S y else y
                      | None => y
                      end)).
    { unfold first_terms. cbn [prefix_terms app mkseq fold_right m Nat.eqb].
      unfold space_star. cbn [m].
      apply (repeat_space_max true c) with (z := List.length ws).
      - lia.
      - now apply spaces_app.
      - unfold c. rewrite nth_error_app2, Nat.sub_diag by lia.
        rewrite <- (head_space_fold_eq _ _ Hm) in Hh.
        destruct mid as [| d mid']; [ discriminate | ].
        simpl in *. now apply negb_true_iff in Hh.
      - unfold c. rewrite length_app. lia.
      - change (fold_right RSeq REmpty (lits term ++ suffix_terms term))
          with (mkseq (lits term ++ suffix_terms term)).
        rewrite m_lits. unfold c at 1.
        rewrite skipn_length_app, (starts_with_ci_app true term mid rest Hm).
        fold y. unfold suffix_terms.
        rewrite boundary_terms_skip; [ apply opt_colon_end | ].
        intro Hw. unfold y, c.
        rewrite <- (map_fold_length _ _ Hm), <- length_app, app_assoc,
          word_boundary_app, rev_app_distr.
        pose proof (last_word_of_occurrence _ _ Hm Hw) as Hl.
        destruct (rev mid); [ discriminate | ]. simpl in *. rewrite Hl.
        specialize (Hr Hw). unfold next_not_word in Hr.
        now destruct (head_word rest). }
    rewrite (exec_at_0 _ _ _ _ M). cbn [firstn app].
    unfold y, c. rewrite <- (map_fold_length _ _ Hm), <- length_app, app_assoc.
    apply skipn_colon. }
  split; [ exact R | ]. unfold remainder. now rewrite R.
Qed.

Lemma start_match_cuts_witness :
  exists re,
    convertToRegExp Start (str "fixme") = Ok re /\
    remainder re (str "  FixMe: the parser  ") = str "the parser".
Proof.
  destruct (start_match_cuts_term_and_colon
              (str "fixme") (str "  ") (str "FixMe") (str ": the parser  ")
              eq_refl eq_refl eq_refl (fun _ => eq_refl))
    as (re & Hre & _ & Hrem).
  exists re. split; [ exact Hre | exact Hrem ].
Defined.

(** ** Comments with nothing in them *)

Lemma drop_space_all s : forallb is_space s = true -> drop_space s = [].
Proof.
  induction s as [| c s IH]; simpl; auto.
  intro H. apply andb_true_iff in H as [Hc Hs]. rewrite Hc. auto.
Qed.

Lemma trim_all_space s : forallb is_space s = true -> trim s = [].
Proof. intro H. unfold trim. now rewrite (drop_space_all _ H). Qed.

Lemma forallb_firstn {A} (p : A -> bool) n l :
  forallb p l = true -> forallb p (firstn n l) = true.
Proof.
  revert l; induction n as [| n IH]; intros [| a l] H; simpl in *; auto.
  apply andb_true_iff in H as [Ha Hl]. rewrite Ha. simpl. now apply IH.
Qed.

Lemma forallb_skipn {A} (p : A -> bool) n l :
  forallb p l = true -> forallb p (skipn n l) = true.
Proof.
  revert l; induction n as [| n IH]; intros [| a l] H; simpl in *; auto.
  apply andb_true_iff in H as [_ Hl]. now apply IH.
Qed.

Lemma replace_empty_all_space re s :
  forallb is_space s = true -> forallb is_space (replace_empty re s) = true.
Proof.
  intro H. unfold replace_empty.
  destruct (exec _ s _) as [[i e] |]; auto.
  rewrite forallb_app, forallb_firstn, forallb_skipn; auto.
Qed.

(** X16.  A comment that is empty or holds only whitespace is never
    reported, whatever the terms and the tracker reference: even when a
    term matches it, nothing is left for the message. *)
Theorem blank_comment_is_never_reported :
  forall (r : rule) (n : node),
    forallb is_space (value n) = true -> checkComment r n = None.
Proof.
  intros r n H. unfold checkComment.
  destruct (isDirectiveComment n && test selfConfigRegEx (value n)); auto.
  unfold getUndocumentedTodoMessage. rewrite first_message_find.
  destruct (find _ (warningRegExps r)) as [re |]; simpl; auto.
  unfold remainder.
  now rewrite (trim_all_space _ (replace_empty_all_space re _ H)).
Qed.

Lemma blank_comment_witness :
  checkComment {| warningRegExps := [first_regexp Start (str "")];
                  repoUrlRegEx := None |}
               (line "   ") = None /\
  test (first_regexp Start (str "")) (str "   ") = true.
Proof.
  split; [ | reflexivity ].
  apply (blank_comment_is_never_reported _ (line "   ")). reflexivity.
Defined.

(** ** Creating the rule *)

Lemma map_result_start terms :
  map_result (convertToRegExp Start) terms = Ok (map (first_regexp Start) terms).
Proof.
  induction terms as [| t terms IH]; simpl; auto.
  now rewrite convertToRegExp_start, IH.
Qed.

(** X7.  In the location [start] no term can make the creation of the rule
    fail, whatever characters it holds: every term compiles, and [create]
    throws only where the tracker reference does. *)
Theorem start_terms_always_compile :
  (forall terms,
      map_result (convertToRegExp Start) terms
      = Ok (map (first_regexp Start) terms)) /\
  (forall options0 lookup,
      location_of (or_default options0 no_configuration) = Start ->
      create options0 lookup =
      (repoUrl <- repoUrl_of (or_default options0 no_configuration) lookup ;;
       tracker <- repoUrlRegEx_of repoUrl ;;
       Ok {| warningRegExps :=
               map (first_regexp Start)
                   (warningTerms (or_default options0 no_configuration));
             repoUrlRegEx := tracker |})).
Proof.
  split; [ exact map_result_start | ].
  intros options0 lookup Hl. unfold create. rewrite Hl, map_result_start.
  reflexivity.
Qed.

Lemma start_terms_witness :
  exists r,
    create (only_terms ["c++"%string; "(?"%string; "[x"%string] Start None)
           bare_manifest = Ok r /\
    List.length (warningRegExps r) = 3.
Proof.
  destruct start_terms_always_compile as [_ A].
  eexists. split.
  - rewrite (A (only_terms ["c++"%string; "(?"%string; "[x"%string] Start None)
               bare_manifest eq_refl).
    reflexivity.
  - reflexivity.
Defined.

Lemma quantifier_cases q :
  is_char q "*+?" = true ->
  q = "*"%char \/ q = "+"%char \/ q = "?"%char.
Proof.
  unfold is_char. simpl. intro H.
  apply orb_true_iff in H as [H | H]; [ apply Ascii.eqb_eq in H; auto | ].
  apply orb_true_iff in H as [H | H]; [ apply Ascii.eqb_eq in H; auto | ].
  apply orb_true_iff in H as [H | H]; [ apply Ascii.eqb_eq in H; auto | ].
  discriminate.
Qed.

Lemma compile_quantifier_after_boundary q rest :
  is_char q "*+?" = true ->
  (forall r, compile (wordBoundary ++ (q :: rest) ++ wordBoundary) <> Ok r) /\
  (forall ts, lex (rest ++ wordBoundary) = Ok ts ->
              compile (wordBoundary ++ (q :: rest) ++ wordBoundary)
              = Throw SyntaxError).
Proof.
  intro Hq. unfold compile. rewrite lex_boundary.
  assert (L : exists k, lex ((q :: rest) ++ wordBoundary)
                        = prepend [TQuant k] (lex (rest ++ wordBoundary))).
  { destruct (quantifier_cases q Hq) as [-> | [-> | ->]];
      eexists; simpl; destruct (lex (rest ++ wordBoundary)); reflexivity. }
  destruct L as (k & ->). rewrite prepend_prepend.
  destruct (lex (rest ++ wordBoundary)) as [ts | e |]; simpl; split;
    intros; try discriminate; reflexivity.
Qed.

(** X8.  In the location [anywhere] a term that begins with [*], [+] or [?]
    (such as ['???']) never compiles: the second alternative puts the raw
    term right after [\b], and [new RegExp] throws a SyntaxError, so the
    rule cannot be created. *)
Theorem anywhere_term_starting_with_quantifier_throws :
  forall term,
    starts_with_quantifier term = true ->
    (forall re, convertToRegExp Anywhere term <> Ok re) /\
    (forall ts, lex (tl term ++ wordBoundary) = Ok ts ->
                convertToRegExp Anywhere term = Throw SyntaxError).
Proof.
  intros [| q rest] Hq; [ discriminate | ]. simpl in Hq.
  destruct (compile_quantifier_after_boundary q rest Hq) as [A B].
  unfold convertToRegExp, RegExp. rewrite compile_anywhere.
  unfold second_source. split.
  - intros re H.
    destruct (compile (wordBoundary ++ (q :: rest) ++ wordBoundary)) as [r | |] eqn:E;
      simpl in H; try discriminate.
    now apply (A r).
  - intros ts Hts. simpl tl in Hts. now rewrite (B ts Hts).
Qed.

Lemma anywhere_quantifier_witness :
  starts_with_quantifier (str "???") = true /\
  convertToRegExp Anywhere (str "???") = Throw SyntaxError /\
  run (only_terms ["todo"%string; "???"%string] Anywhere None) bare_manifest
      [line " todo: x"] = Throw SyntaxError.
Proof.
  split; [ reflexivity | ]. split; [ | reflexivity ].
  destruct (anywhere_term_starting_with_quantifier_throws (str "???") eq_refl)
    as [_ B].
  eapply B. reflexivity.
Defined.

(** ** The tracker reference, in full *)

Lemma test_literal t c : test (literal_regexp t) c = contains_ci t c.
Proof.
  apply eq_true_iff_eq. rewrite test_true_iff. unfold contains_ci.
  rewrite existsb_exists. simpl re_pattern. simpl re_ignoreCase.
  split.
  - intros (i & Hi & Hm). exists i. split; [ now apply in_positions | ].
    rewrite <- (app_nil_r (lits t)), m_lits in Hm. unfold occurs_at.
    destruct (starts_with_ci true t (skipn i c)); [ reflexivity | contradiction ].
  - intros (i & Hi & Ho). exists i. split; [ now apply in_positions | ].
    unfold occurs_at in Ho.
    rewrite <- (app_nil_r (lits t)), m_lits, Ho. discriminate.
Qed.

Lemma created_tracker options0 lookup r u :
  create options0 lookup = Ok r ->
  repoUrl_of (or_default options0 no_configuration) lookup = Ok (VString u) ->
  u <> [] ->
  repoUrlRegEx r = Some (literal_regexp (trim u)).
Proof.
  intros Hc Hu Hne. apply create_inv in Hc as (v & Hv & Ht & _).
  rewrite Hu in Hv. injection Hv as <-.
  rewrite repoUrlRegEx_of_string in Ht.
  - now injection Ht as <-.
  - destruct u; [ contradiction | reflexivity ].
Qed.

(** X9.  With a tracker reference that is a non-empty string, a comment is
    exempt exactly when it holds the trimmed reference, letter case aside:
    the reference is taken as text, its dots and question marks are no
    wildcards. *)
Theorem exemption_is_literal_containment :
  forall options0 lookup r u,
    create options0 lookup = Ok r ->
    repoUrl_of (or_default options0 no_configuration) lookup = Ok (VString u) ->
    u <> [] ->
    forall comment,
      commentHasIssue r comment = contains_ci (trim u) comment.
Proof.
  intros options0 lookup r u Hc Hu Hne comment. unfold commentHasIssue.
  rewrite (created_tracker _ _ _ _ Hc Hu Hne). apply test_literal.
Qed.

Lemma exemption_witness :
  exists r,
    create dotted_options bare_manifest = Ok r /\
    commentHasIssue r (str " TODO: see HTTPS://X.test/issues?id=1.") = true /\
    commentHasIssue r (str " TODO: see https://xxtest/issues?id=1") = false.
Proof.
  assert (C : exists r, create dotted_options bare_manifest = Ok r)
    by (eexists; reflexivity).
  destruct C as [r Hr]. exists r. split; [ exact Hr | ].
  assert (U : str " https://x.test/issues?id=1 " <> []) by discriminate.
  split.
  - rewrite (exemption_is_literal_containment
               dotted_options bare_manifest r _ Hr eq_refl U).
    reflexivity.
  - rewrite (exemption_is_literal_containment
               dotted_options bare_manifest r _ Hr eq_refl U).
    reflexivity.
Defined.

Lemma Program_nil r comments :
  (forall n, checkComment r n = None) -> Program r comments = [].
Proof.
  intro H. unfold Program.
  induction (filter not_shebang comments) as [| n l IH]; simpl; auto.
  now rewrite H.
Qed.

Lemma exempt_not_reported r n :
  commentHasIssue r (value n) = true -> checkComment r n = None.
Proof.
  intro H. unfold checkComment.
  destruct (isDirectiveComment n && test selfConfigRegEx (value n)); auto.
  unfold getUndocumentedTodoMessage. now rewrite first_message_exempt.
Qed.

Lemma contains_ci_nil c : contains_ci [] c = true.
Proof. reflexivity. Qed.

(** X10.  An option [url] that holds only whitespace (and is not empty)
    silences the rule: it is truthy, it is trimmed to the empty pattern,
    every comment is exempt and nothing is ever reported. *)
Theorem blank_url_silences_the_rule :
  forall options0 lookup r u,
    create options0 lookup = Ok r ->
    url (or_default options0 no_configuration) = Some u ->
    u <> [] -> forallb is_space u = true ->
    forall comments, Program r comments = [].
Proof.
  intros options0 lookup r u Hc Hu Hne Hs comments.
  assert (R : repoUrl_of (or_default options0 no_configuration) lookup
              = Ok (VString u)).
  { unfold repoUrl_of. rewrite Hu. destruct u; [ contradiction | reflexivity ]. }
  apply Program_nil. intro n. apply exempt_not_reported.
  unfold commentHasIssue. rewrite (created_tracker _ _ _ _ Hc R Hne).
  now rewrite test_literal, (trim_all_space _ Hs).
Qed.

Lemma blank_url_witness :
  exists r,
    create (only_terms ["todo"%string] Start (Some "  "%string)) bare_manifest
    = Ok r /\
    Program r [line " TODO: first"; line " todo second"] = [].
Proof.
  assert (C : exists r,
             create (only_terms ["todo"%string] Start (Some "  "%string))
                    bare_manifest = Ok r)
    by (eexists; reflexivity).
  destruct C as [r Hr]. exists r. split; [ exact Hr | ].
  apply (blank_url_silences_the_rule
           (only_terms ["todo"%string] Start (Some "  "%string)) bare_manifest
           r (str "  ") Hr eq_refl);
    [ discriminate | reflexivity ].
Defined.

(** X11.  With an option [url] that is not empty the manifest is not read:
    the rule is the same whatever the lookup does, even if it throws; in
    the location [start] its creation always succeeds. *)
Theorem configured_url_needs_no_manifest :
  forall options0 u,
    url (or_default options0 no_configuration) = Some u -> u <> [] ->
    (forall lookup lookup', create options0 lookup = create options0 lookup') /\
    (location_of (or_default options0 no_configuration) = Start ->
     forall lookup,
       create options0 lookup =
       Ok {| warningRegExps :=
               map (first_regexp Start)
                   (warningTerms (or_default options0 no_configuration));
             repoUrlRegEx := Some (literal_regexp (trim u)) |}).
Proof.
  intros options0 u Hu Hne.
  assert (R : forall lookup,
             repoUrl_of (or_default options0 no_configuration) lookup
             = Ok (VString u)).
  { intro lookup. unfold repoUrl_of. rewrite Hu.
    destruct u; [ contradiction | reflexivity ]. }
  split.
  - intros lookup lookup'. unfold create. now rewrite !R.
  - intros Hl lookup. unfold create. rewrite R, Hl, map_result_start.
    cbn [bind]. rewrite repoUrlRegEx_of_string; [ reflexivity | ].
    destruct u; [ contradiction | reflexivity ].
Qed.

Lemma configured_url_witness :
  create tracker_options (Throw LookupError) = create tracker_options bare_manifest /\
  exists r, create tracker_options (Ok VUndefined) = Ok r.
Proof.
  destruct (configured_url_needs_no_manifest
              tracker_options (str "https://example.com/issues/4") eq_refl)
    as [A B]; [ discriminate | ].
  split; [ apply A | ]. eexists. apply (B eq_refl).
Defined.

(** X17.  An empty array of terms is kept as it is (the default terms are
    not put in its place), so the rule reports nothing. *)
Theorem empty_terms_report_nothing :
  forall options0 lookup r,
    terms (or_default options0 no_configuration) = Some [] ->
    create options0 lookup = Ok r ->
    warningRegExps r = [] /\ forall comments, Program r comments = [].
Proof.
  intros options0 lookup r Ht Hc.
  apply create_inv in Hc as (_ & _ & _ & Hr).
  unfold warningTerms in Hr. rewrite Ht in Hr. simpl in Hr.
  injection Hr as Hr. split; [ now symmetry | ].
  intro comments. apply Program_nil. intro n. unfold checkComment.
  destruct (isDirectiveComment n && test selfConfigRegEx (value n)); auto.
  unfold getUndocumentedTodoMessage. now rewrite <- Hr.
Qed.

Lemma empty_terms_witness :
  exists r,
    create (only_terms [] Start None) bare_manifest = Ok r /\
    Program r [line " TODO: first"] = [].
Proof.
  assert (C : exists r, create (only_terms [] Start None) bare_manifest = Ok r)
    by (eexists; reflexivity).
  destruct C as [r Hr]. exists r. split; [ exact Hr | ].
  apply (empty_terms_report_nothing (only_terms [] Start None) bare_manifest r
           eq_refl Hr).
Defined.

(** ** Block directives *)

Lemma token_in_trimmed v pre post :
  trim v = pre ++ str "no-warning-comments" ++ post ->
  head_word (rev pre) = false -> head_word post = false ->
  test selfConfigRegEx v = true.
Proof.
  intros Htok Hpre Hpost.
  destruct (trim_decomp v) as (a & b & Hv & Ha & Hb).
  rewrite Hv, Htok.
  replace (a ++ (pre ++ str "no-warning-comments" ++ post) ++ b)
    with ((a ++ pre) ++ token_text ++ (post ++ b))
    by (unfold token_text; now rewrite <- !app_assoc).
  apply test_selfConfigRegEx.
  - rewrite rev_app_distr. apply head_word_padded; auto.
    now rewrite forallb_rev.
  - now apply head_word_padded.
Qed.

(** X15.  A block comment whose trimmed text begins with ['global '],
    ['eslint '] or ['eslint-'] and holds the token ['no-warning-comments']
    is never reported, whatever the terms; a single-line comment with one
    of the first two prefixes is no directive. *)
Theorem block_directive_is_never_reported :
  (forall (r : rule) (n : node) (pre post : jsstring),
      type n = Block ->
      block_directive_prefix (trim (value n)) = true ->
      trim (value n) = pre ++ str "no-warning-comments" ++ post ->
      head_word (rev pre) = false -> head_word post = false ->
      checkComment r n = None) /\
  (forall n,
      type n = Line ->
      isDirectiveComment n = starts_with (str "eslint-") (trim (value n))).
Proof.
  split.
  - intros r n pre post Hty Hp Htok Hpre Hpost. unfold checkComment.
    assert (D : isDirectiveComment n = true).
    { unfold isDirectiveComment. rewrite Hty, !indexOf_zero. exact Hp. }
    now rewrite D, (token_in_trimmed _ _ _ Htok Hpre Hpost).
  - intros n Hty. unfold isDirectiveComment.
    rewrite Hty, indexOf_zero. simpl. apply orb_false_r.
Qed.

Lemma block_directive_witness :
  checkComment todo_rule
    {| type := Block;
       value := str " global todo, no-warning-comments: off " |} = None /\
  isDirectiveComment (line " global todo no-warning-comments") = false.
Proof.
  destruct block_directive_is_never_reported as [A B]. split.
  - apply (A todo_rule
             {| type := Block;
                value := str " global todo, no-warning-comments: off " |}
             (str "global todo, ") (str ": off")); reflexivity.
  - rewrite (B (line " global todo no-warning-comments") eq_refl).
    reflexivity.
Defined.

(** ** [getRepoUrl] on a manifest *)

(** X13.  When [bugs] gives a reference - it is a non-empty string, or its
    [url] is truthy - [getRepoUrl] returns it and reads neither
    [repository] nor [resolutions]: it does not throw, whatever those
    fields are. *)
Theorem bugs_is_read_first :
  forall fields v,
    bugs_reference (assoc "bugs" fields) = Some v ->
    getRepoUrl (manifest fields) = Ok v.
Proof.
  intros fields v H. unfold getRepoUrl, manifest. simpl.
  unfold bugs_reference in H.
  destruct (truthy (assoc "bugs" fields)) eqn:Tb; [ | discriminate ].
  simpl. destruct (is_string (assoc "bugs" fields)).
  - now injection H as <-.
  - rewrite (get_prop _ "url" (truthy_not_nullish _ Tb)). simpl.
    destruct (truthy (prop (assoc "bugs" fields) "url")); [ | discriminate ].
    now injection H as <-.
Qed.

Lemma bugs_first_witness :
  getRepoUrl (manifest both_fields) = Ok (VString (str "https://x.test/issues")).
Proof. apply (bugs_is_read_first both_fields). reflexivity. Defined.

(** X14.  When [bugs] gives no reference and [repository] is an object,
    [getRepoUrl] looks at [resolutions], not at [repository]: it throws a
    TypeError when [resolutions] is absent or null, it returns
    [repository.url] when [resolutions.url] is truthy, and [undefined]
    otherwise. *)
Theorem repository_object_depends_on_resolutions :
  forall fields rf,
    bugs_reference (assoc "bugs" fields) = None ->
    assoc "repository" fields = VObject rf ->
    getRepoUrl (manifest fields) =
    if nullish (assoc "resolutions" fields) then Throw TypeError
    else if truthy (prop (assoc "resolutions" fields) "url")
         then Ok (assoc "url" rf)
         else Ok VUndefined.
Proof.
  intros fields rf Hb Hr. unfold getRepoUrl, manifest. simpl.
  assert (A : (if truthy (assoc "bugs" fields)
               then if is_string (assoc "bugs" fields)
                    then Ok (Some (assoc "bugs" fields))
                    else bugs_url <- get (assoc "bugs" fields) "url" ;;
                         (if truthy bugs_url then Ok (Some bugs_url) else Ok None)
               else Ok None) = Ok None).
  { unfold bugs_reference in Hb.
    destruct (truthy (assoc "bugs" fields)) eqn:Tb; [ | reflexivity ].
    destruct (is_string (assoc "bugs" fields)); [ discriminate | ].
    rewrite (get_prop _ "url" (truthy_not_nullish _ Tb)). simpl.
    destruct (truthy (prop (assoc "bugs" fields) "url")); [ discriminate | ].
    reflexivity. }
  rewrite A, Hr. simpl.
  destruct (nullish (assoc "resolutions" fields)) eqn:N.
  - destruct (assoc "resolutions" fields); try discriminate; reflexivity.
  - rewrite (get_prop _ "url" N). simpl.
    destruct (truthy (prop (assoc "resolutions" fields) "url")); reflexivity.
Qed.

Lemma repository_object_witness :
  getRepoUrl (manifest [("repository"%string, repository_object);
                        ("resolutions"%string,
                         VObject [("url"%string, VString (str "x"))])])
  = Ok (VString (str "https://github.com/AuHau/eslint-plugin-todos")).
Proof.
  apply (repository_object_depends_on_resolutions
           [("repository"%string, repository_object);
            ("resolutions"%string, VObject [("url"%string, VString (str "x"))])]
           [("type"%string, VString (str "git"));
            ("url"%string,
             VString (str "https://github.com/AuHau/eslint-plugin-todos"))]);
    reflexivity.
Defined.

(** ** The reports of a file *)

Lemma checkComment_some r n msg :
  checkComment r n = Some msg ->
  exists t,
    getUndocumentedTodoMessage r (value n) = Some t /\ t <> [] /\
    msg = str "Undocumented TODO: " ++ t.
Proof.
  unfold checkComment.
  destruct (isDirectiveComment n && test selfConfigRegEx (value n));
    [ discriminate | ].
  destruct (getUndocumentedTodoMessage r (value n)) as [t |]; [ | discriminate ].
  destruct t as [| c t]; simpl; [ discriminate | ].
  intro H. injection H as <-. exists (c :: t). repeat split. discriminate.
Qed.

(** X18.  The reports of a file: each one is about a comment of the file that
    is no shebang, its message is ['Undocumented TODO: '] followed by the
    non-empty message of that comment; the reported comments are, in the
    order of the file and once each, the comments that are no shebang and
    have a report. *)
Theorem reports_follow_the_comments :
  forall r comments,
    (forall n msg,
        In (n, msg) (Program r comments) ->
        In n comments /\ type n <> Shebang /\
        exists t,
          getUndocumentedTodoMessage r (value n) = Some t /\ t <> [] /\
          msg = str "Undocumented TODO: " ++ t) /\
    map fst (Program r comments) =
    filter (fun n => not_shebang n && is_some (checkComment r n)) comments.
Proof.
  intros r comments. split.
  - intros n msg H. unfold Program in H.
    apply in_flat_map in H as (n' & Hn' & Hin).
    apply filter_In in Hn' as [Hc Hs].
    destruct (checkComment r n') as [msg' |] eqn:E; [ | contradiction ].
    destruct Hin as [Hin | []]. injection Hin as -> ->.
    repeat split; auto.
    + intro Ht. unfold not_shebang in Hs. rewrite Ht in Hs. discriminate.
    + now apply checkComment_some.
  - unfold Program. induction comments as [| n l IH]; simpl; auto.
    destruct (not_shebang n); simpl; auto.
    destruct (checkComment r n); simpl; now rewrite IH.
Qed.

Lemma reports_witness :
  In (line " TODO: b", str "Undocumented TODO: b")
     (Program todo_rule
        [{| type := Shebang; value := str "todo a" |}; line " TODO: b"]) /\
  map fst (Program todo_rule
             [{| type := Shebang; value := str "todo a" |}; line " TODO: b";
              line "nothing"; line "todo: c"])
  = [line " TODO: b"; line "todo: c"].
Proof.
  split; [ now left | ].
  destruct (reports_follow_the_comments todo_rule
              [{| type := Shebang; value := str "todo a" |}; line " TODO: b";
               line "nothing"; line "todo: c"]) as [_ H].
  rewrite H. reflexivity.
Defined.

(** X19.  The order of the terms decides: the message comes from the first
    term that matches; the terms after it are not tried, even if they match
    too. *)
Theorem first_matching_term_decides :
  forall r comment before re after,
    warningRegExps r = before ++ re :: after ->
    forallb (fun x => negb (test x comment)) before = true ->
    test re comment = true ->
    commentHasIssue r comment = false ->
    getUndocumentedTodoMessage r comment =
    Some (ellipsize (remainder re comment) 60).
Proof.
  intros r comment before re after Hw Hb Ht Hc.
  unfold getUndocumentedTodoMessage. rewrite Hw. clear Hw.
  induction before as [| x before IH]; simpl in *.
  - now rewrite Ht, Hc.
  - apply andb_true_iff in Hb as [Hx Hb]. apply negb_true_iff in Hx.
    rewrite Hx. simpl. now apply IH.
Qed.

Lemma first_matching_term_witness :
  getUndocumentedTodoMessage
    {| warningRegExps := [first_regexp Anywhere (str "fixme");
                          first_regexp Anywhere (str "todo");
                          first_regexp Anywhere (str "later")];
       repoUrlRegEx := None |}
    (str " todo: do it later") = Some (str "do it later").
Proof.
  apply (first_matching_term_decides
           {| warningRegExps := [first_regexp Anywhere (str "fixme");
                                 first_regexp Anywhere (str "todo");
                                 first_regexp Anywhere (str "later")];
              repoUrlRegEx := None |}
           (str " todo: do it later")
           [first_regexp Anywhere (str "fixme")]
           (first_regexp Anywhere (str "todo"))
           [first_regexp Anywhere (str "later")]); reflexivity.
Defined.

(** X12.  A reference found in the manifest that is truthy and no string (a
    [bugs.url] that is an object, say) makes the creation of the rule throw
    a TypeError: it has no [trim]. *)
Theorem reference_that_is_no_string_throws :
  forall options0 lookup v,
    url_unset options0 = true ->
    getRepoUrl lookup = Ok v ->
    truthy v = true -> is_string v = false ->
    create options0 lookup = Throw TypeError.
Proof.
  intros options0 lookup v Hu Hg Ht Hs. unfold create.
  rewrite (repoUrl_of_unset _ _ Hu), Hg. cbn [bind].
  unfold repoUrlRegEx_of. rewrite Ht.
  destruct v; try discriminate; reflexivity.
Qed.

Lemma reference_no_string_witness :
  create None odd_manifest = Throw TypeError.
Proof.
  apply (reference_that_is_no_string_throws None odd_manifest
           (VObject [("web"%string, VString (str "https://x.test"))]));
    reflexivity.
Defined.

Lemma test_word_end_head term : test word_end term = head_word (rev term).
Proof.
  destruct term as [| c init] using rev_ind.
  - apply test_word_end_nil.
  - now rewrite test_word_end_snoc, rev_app_distr.
Qed.

Lemma test_word_end_fold_eq t t' :
  map fold t = map fold t' -> test word_end t = test word_end t'.
Proof.
  intro H. rewrite !test_word_end_head. apply head_word_fold_eq.
  now rewrite !map_rev, H.
Qed.

(** X6.  In the location [start] the letter case of the configured term
    does not matter: two terms that differ only in letter case match the
    same comments. *)
Theorem term_case_is_ignored_at_start :
  forall term term' c,
    map fold term = map fold term' ->
    matches Start term c = matches Start term' c.
Proof.
  intros term term' c H. unfold matches.
  rewrite !convertToRegExp_start. cbn [bind]. f_equal.
  apply eq_true_iff_eq. rewrite !start_match_iff.
  assert (O : forall z, occurs_at term c z = occurs_at term' c z).
  { intro z. unfold occurs_at. apply eq_true_iff_eq. split; intro Ho;
      apply starts_with_ci_inv in Ho as (mid & post & -> & Hm);
      apply starts_with_ci_app.
    - transitivity (map fold term); [ exact Hm | exact H ].
    - transitivity (map fold term'); [ exact Hm | symmetry; exact H ]. }
  split; intros (z & Hs & Ho & Hb); exists z; (split; [ exact Hs | split ]).
  - now rewrite <- O.
  - rewrite <- (test_word_end_fold_eq _ _ H), <- (map_fold_length _ _ H).
    exact Hb.
  - now rewrite O.
  - rewrite (test_word_end_fold_eq _ _ H), (map_fold_length _ _ H).
    exact Hb.
Qed.

Lemma term_case_witness :
  matches Start (str "TODO") (str " todo: x") =
  matches Start (str "todo") (str " todo: x").
Proof.
  apply (term_case_is_ignored_at_start (str "TODO") (str "todo")). reflexivity.
Defined.
